(** * Metaflow: the diagram interaction state machine and the shape renderer

    A shallow embedding of
    - [src/app/components/diagram/behavior.ts]: [DiagramBehavior] and its
      states [Idle], [Panning] and [Animating];
    - [src/app/platform/render.ts]: [ShapeRenderer.attach].

    TypeScript [number]s are read as real numbers: [Math.pow] is [Rpower],
    [Math.log10] is [ln x / ln 10], [Math.abs] is [Rabs].  Rounding, NaN and
    the infinities of IEEE doubles are outside the model. *)

From Stdlib Require Import Reals Lra Lia List String Bool ZArith.
Import ListNotations.
Open Scope R_scope.

(** * Numbers and JavaScript operators on them *)

(** [a <= b], [a >= b] and [a > b] as the booleans the conditionals test. *)
Definition Rleb (a b : R) : bool := if Rle_dec a b then true else false.
Definition Rgeb (a b : R) : bool := Rleb b a.
Definition Rgtb (a b : R) : bool := if Rlt_dec b a then true else false.

(** [x || d] on numbers: [0] is the falsy number. *)
Definition num_or (x d : R) : R := if Req_dec_T x 0 then d else x.

(** [x || d] where [x] may be [undefined]. *)
Definition opt_num_or (x : option R) (d : R) : R :=
  match x with
  | Some v => num_or v d
  | None => d
  end.

Definition log10 (x : R) : R := ln x / ln 10.

(** [Math.pow(b, e)] for a positive base. *)
Definition Math_pow (b e : R) : R := Rpower b e.

(** * The camera *)

Module Camera.

(** Modelled from the spec: the class [Camera] of [common/camera.ts], which
    the states drive but which is not part of the sources.  The spec gives
    the pan offset [cameraX, cameraY], the zoom factor [scale], the viewport
    size [visualWidth, visualHeight], and the visible world rectangle as
    [(cameraX / scale, cameraY / scale, visualWidth / scale,
    visualHeight / scale)]. *)
Record t : Type := mk {
  cameraX : R;
  cameraY : R;
  scale : R;
  visualWidth : R;
  visualHeight : R
}.

Definition worldX (c : t) : R := cameraX c / scale c.
Definition worldY (c : t) : R := cameraY c / scale c.
Definition projWidth (c : t) : R := visualWidth c / scale c.
Definition projHeight (c : t) : R := visualHeight c / scale c.

(** Modelled from the spec: [castRayX/castRayY(screenCoord)] is the world
    coordinate under a screen point; the left edge of the world rectangle
    lies under screen coordinate [0] and one pixel spans [1 / scale]. *)
Definition castRayX (sx : R) (c : t) : R := worldX c + sx / scale c.
Definition castRayY (sy : R) (c : t) : R := worldY c + sy / scale c.

(** Modelled from the spec: the screen projection of a world coordinate,
    the inverse of [castRayX]/[castRayY]. *)
Definition screenX (wx : R) (c : t) : R := wx * scale c - cameraX c.
Definition screenY (wy : R) (c : t) : R := wy * scale c - cameraY c.

(** Modelled from the spec: [moveTo(x, y)] is the absolute pan. *)
Definition moveTo (x y : R) (c : t) : t :=
  mk x y (scale c) (visualWidth c) (visualHeight c).

(** Modelled from the spec: [zoomToAbout(targetScale, anchorWorldX,
    anchorWorldY)] takes the new scale and solves for the pan that keeps the
    anchor's screen projection. *)
Definition zoomToAbout (s ax ay : R) (c : t) : t :=
  mk (ax * s - screenX ax c) (ay * s - screenY ay c) s
     (visualWidth c) (visualHeight c).

End Camera.

(** * Visuals and the view model *)

(** A PIXI display object: its identity and its ordered children. *)
Inductive DisplayObject : Type :=
| Container (id : nat) (children : list DisplayObject).

Definition children (o : DisplayObject) : list DisplayObject :=
  match o with Container _ cs => cs end.

(** Modelled from the spec: a [ViewVertex] of [common/viewmodel.ts] (not part
    of the sources), reduced to what the modelled code reads: its [name] and
    the [visual] handle, which is absent until the renderer has drawn it. *)
Module ViewVertex.
Record t : Type := mk {
  name : string;
  visual : option DisplayObject
}.
End ViewVertex.

(** * Animations and kinetics *)

(** Modelled from the spec: the named interpolator factories of
    [common/animations.ts] (not part of the sources).  An interpolator is
    kept as the factory call that made it, without the camera argument: there
    is one camera. *)
Inductive Animation : Type :=
| navigateToItem (panZoomPreference velocity : R) (vertex : ViewVertex.t)
| navigateTo (targetX targetY velocity panZoom targetWidth : R)
| centerOnWorld (x y durationMs : R)
| throwCamera (speed angle durationMs : R).

(** The interface of [common/kinetics.ts] (not part of the sources) as the
    states use it. *)
Class KineticsOps (K : Type) : Type := {
  kinetics_new : K;
  kinetics_update : R -> R -> K -> K;
  kinetics_reset : K -> K;
  kinetics_speed : K -> R;
  kinetics_angle : K -> R;
  kinetics_hasEnoughMomentum : K -> bool
}.

(** * The data of the state machine *)

(** The [params] object handed to [goto]: every property may be missing. *)
Module Params.
Record t : Type := mk {
  x : option R;
  y : option R;
  forced : option bool;
  interpolator : option Animation
}.
End Params.

Module Limits.
Record t : Type := mk {
  left : R;
  top : R;
  right : R;
  bottom : R
}.
End Limits.

(** The initializer of [BaseState.limits]. *)
Definition default_limits : Limits.t := Limits.mk (-800) (-800) 2800 2800.

(** The fields of the three state objects. *)
Module Idle.
Record t : Type := mk {
  limits : Limits.t;
  maxZoom : R
}.
End Idle.

Module Panning.
Record t (K : Type) : Type := mk {
  limits : Limits.t;
  anchorX : R;
  anchorY : R;
  pressedX : R;
  pressedY : R;
  kinetics : option K;
  left : bool;
  right : bool;
  bottom : bool;
  top : bool
}.
Arguments mk {K}.
Arguments limits {K}.
Arguments anchorX {K}.
Arguments anchorY {K}.
Arguments pressedX {K}.
Arguments pressedY {K}.
Arguments kinetics {K}.
Arguments left {K}.
Arguments right {K}.
Arguments bottom {K}.
Arguments top {K}.
End Panning.

Module Animating.
Record t : Type := mk {
  limits : Limits.t;
  forceAnimation : bool;
  animation : option Animation
}.
End Animating.

(** The state objects are referred to by [current], [last] and [lookup]. *)
Inductive StateRef : Type := IdleRef | PanningRef | AnimatingRef.

(** [BaseState.name], as the constructor of [DiagramBehavior] sets it. *)
Definition name (s : StateRef) : string :=
  match s with
  | IdleRef => "idle"
  | PanningRef => "panning"
  | AnimatingRef => "animating"
  end.

(** The part of [DiagramImpl] (not part of the sources) the states read. *)
Record Diagram : Type := mkDiagram {
  camera : Camera.t;
  respectLimits : bool;
  rubberBanding : bool;
  useKinetics : bool;
  animatedNavigation : bool;
  zoomPanPreference : R;
  navigationVelocity : R;
  scope_current : option ViewVertex.t
}.

(** The calls the machine makes on its states and on animations, in order. *)
Inductive Call : Type :=
| LeaveState (s : StateRef)
| EnterState (s : StateRef) (params : option Params.t)
| Play (a : Animation)
| Stop (a : Animation).

(** [DiagramBehavior] with its three state objects and the diagram it drives.
    [lastState_own] is the own property [lastState] of the instance: [None]
    while only the method of the class is there. *)
Record Behavior (K : Type) : Type := mkBehavior {
  current : option StateRef;
  last : option StateRef;
  lastState_own : option StateRef;
  idle : Idle.t;
  panning : Panning.t K;
  animating : Animating.t;
  diagram : Diagram;
  calls : list Call
}.
Arguments mkBehavior {K}.
Arguments current {K}.
Arguments last {K}.
Arguments lastState_own {K}.
Arguments idle {K}.
Arguments panning {K}.
Arguments animating {K}.
Arguments diagram {K}.
Arguments calls {K}.

(** A call either returns or throws, with the machine as it then is. *)
Inductive Outcome (A : Type) : Type :=
| Returns (a : A)
| Throws (a : A).
Arguments Returns {A}.
Arguments Throws {A}.

Definition bind {A : Type} (o : Outcome A) (f : A -> Outcome A) : Outcome A :=
  match o with
  | Returns a => f a
  | Throws a => Throws a
  end.

Notation "x <- o ;; k" := (bind o (fun x => k))
  (at level 61, o at next level, right associativity).

Definition machine {A : Type} (o : Outcome A) : A :=
  match o with Returns a => a | Throws a => a end.

(** The result of a query that reads a property of a possibly missing
    object. *)
Inductive Query : Type :=
| Value (s : string)
| TypeError.

(** [supportedStates()]. *)
Definition supportedStates : list string :=
  ["idle"%string; "panning"%string; "animating"%string].

(** [this.states] and the [lookup] object the constructor fills from it. *)
Definition states : list StateRef := [IdleRef; PanningRef; AnimatingRef].

Definition lookup_table : list (string * StateRef) :=
  fold_left (fun tbl it => (name it, it) :: tbl) states [].

Fixpoint property {A : Type} (tbl : list (string * A)) (key : string)
  : option A :=
  match tbl with
  | [] => None
  | (k, v) :: rest => if String.eqb k key then Some v else property rest key
  end.

(** [this.lookup[state]]. *)
Definition lookup (state : string) : option StateRef :=
  property lookup_table state.

(** * The state machine *)

Section Machine.

Context {K : Type} {kops : KineticsOps K}.

Definition set_current (v : option StateRef) (b : Behavior K) : Behavior K :=
  mkBehavior v (last b) (lastState_own b) (idle b) (panning b) (animating b)
             (diagram b) (calls b).

Definition set_last (v : option StateRef) (b : Behavior K) : Behavior K :=
  mkBehavior (current b) v (lastState_own b) (idle b) (panning b)
             (animating b) (diagram b) (calls b).

Definition set_lastState_own (v : option StateRef) (b : Behavior K)
  : Behavior K :=
  mkBehavior (current b) (last b) v (idle b) (panning b) (animating b)
             (diagram b) (calls b).

Definition set_panning (v : Panning.t K) (b : Behavior K) : Behavior K :=
  mkBehavior (current b) (last b) (lastState_own b) (idle b) v (animating b)
             (diagram b) (calls b).

Definition set_animating (v : Animating.t) (b : Behavior K) : Behavior K :=
  mkBehavior (current b) (last b) (lastState_own b) (idle b) (panning b) v
             (diagram b) (calls b).

Definition set_camera (c : Camera.t) (b : Behavior K) : Behavior K :=
  let d := diagram b in
  mkBehavior (current b) (last b) (lastState_own b) (idle b) (panning b)
             (animating b)
             (mkDiagram c (respectLimits d) (rubberBanding d) (useKinetics d)
                        (animatedNavigation d) (zoomPanPreference d)
                        (navigationVelocity d) (scope_current d))
             (calls b).

(** Records a call in the order it is made. *)
Definition call (c : Call) (b : Behavior K) : Behavior K :=
  mkBehavior (current b) (last b) (lastState_own b) (idle b) (panning b)
             (animating b) (diagram b) (calls b ++ [c]).

(** ** [leaveState] and [enterState] of the states *)

(** [BaseState.enterState] and [BaseState.leaveState], which [Idle] keeps. *)
Definition BaseState_enterState (params : option Params.t) (b : Behavior K)
  : Outcome (Behavior K) := Returns b.

Definition BaseState_leaveState (b : Behavior K) : Outcome (Behavior K) :=
  Returns b.

(** [Panning.resetViolations]. *)
Definition resetViolations (p : Panning.t K) : Panning.t K :=
  Panning.mk (Panning.limits p) (Panning.anchorX p) (Panning.anchorY p)
             (Panning.pressedX p) (Panning.pressedY p) (Panning.kinetics p)
             false false false false.

(** [Panning.leaveState]: [this.kinetics.reset()] throws while [kinetics] is
    still [undefined]. *)
Definition Panning_leaveState (b : Behavior K) : Outcome (Behavior K) :=
  let p := panning b in
  match Panning.kinetics p with
  | None => Throws b
  | Some k =>
      Returns (set_panning
                 (resetViolations
                    (Panning.mk (Panning.limits p) 0 0 0 0
                                (Some (kinetics_reset k))
                                (Panning.left p) (Panning.right p)
                                (Panning.bottom p) (Panning.top p))) b)
  end.

(** [Animating.leaveState]. *)
Definition Animating_leaveState (b : Behavior K) : Outcome (Behavior K) :=
  let a := animating b in
  match Animating.animation a with
  | Some anim =>
      Returns (set_animating
                 (Animating.mk (Animating.limits a)
                               (Animating.forceAnimation a) None)
                 (call (Stop anim) b))
  | None => Returns b
  end.

Definition leaveState (s : StateRef) (b : Behavior K)
  : Outcome (Behavior K) :=
  match s with
  | IdleRef => BaseState_leaveState b
  | PanningRef => Panning_leaveState b
  | AnimatingRef => Animating_leaveState b
  end.

(** The body of [DiagramBehavior.goto], over the [enterState] it dispatches
    to.  [console.log] under [debug] is left out. *)
Definition goto_with
    (enter : StateRef -> option Params.t -> Behavior K -> Outcome (Behavior K))
    (state : string) (params : option Params.t) (b : Behavior K)
  : Outcome (Behavior K) :=
  match lookup state with
  | Some newState =>
      b1 <- match current b with
            | Some cur => leaveState cur (call (LeaveState cur) b)
            | None => Returns b
            end ;;
      let b2 := set_last (current b1) b1 in
      let b3 := set_current (Some newState) b2 in
      enter newState params (call (EnterState newState params) b3)
  | None => Returns b
  end.

(** [BaseState.becomeIdle]: [this.behavior.goto('idle')].  The state entered
    is the idle state, whose [enterState] is the one of [BaseState]. *)
Definition becomeIdle (b : Behavior K) : Outcome (Behavior K) :=
  goto_with (fun _ => BaseState_enterState) "idle" None b.

(** [Panning.handleMouseDown]. *)
Definition Panning_handleMouseDown (x y : R) (b : Behavior K)
  : Outcome (Behavior K) :=
  let p := panning b in
  let cam := camera (diagram b) in
  Returns (set_panning
             (Panning.mk (Panning.limits p)
                         (Camera.cameraX cam) (Camera.cameraY cam) x y
                         (Panning.kinetics p)
                         (Panning.left p) (Panning.right p)
                         (Panning.bottom p) (Panning.top p)) b).

(** [Panning.enterState]. *)
Definition Panning_enterState (params : option Params.t) (b : Behavior K)
  : Outcome (Behavior K) :=
  let p := panning b in
  let k := match Panning.kinetics p with
           | Some k => k
           | None => kinetics_new
           end in
  let b1 := set_panning
              (Panning.mk (Panning.limits p)
                          (Panning.anchorX p) (Panning.anchorY p)
                          (Panning.pressedX p) (Panning.pressedY p) (Some k)
                          (Panning.left p) (Panning.right p)
                          (Panning.bottom p) (Panning.top p)) b in
  match params with
  | Some ps =>
      Panning_handleMouseDown (opt_num_or (Params.x ps) 0)
                              (opt_num_or (Params.y ps) 0) b1
  | None => Returns b1
  end.

(** [Animating.enterState].  With [params] that carry no interpolator,
    assigning [this.animation.onFinished] throws.  [play()] starts the frame
    loop and returns; [onFinished] is [becomeIdle]. *)
Definition Animating_enterState (params : option Params.t) (b : Behavior K)
  : Outcome (Behavior K) :=
  match params with
  | Some ps =>
      let forced := match Params.forced ps with
                    | Some f => f
                    | None => false
                    end in
      let b1 := set_animating
                  (Animating.mk (Animating.limits (animating b)) forced
                                (Params.interpolator ps)) b in
      match Params.interpolator ps with
      | Some anim => Returns (call (Play anim) b1)
      | None => Throws b1
      end
  | None => becomeIdle b
  end.

Definition enterState (s : StateRef) (params : option Params.t)
    (b : Behavior K) : Outcome (Behavior K) :=
  match s with
  | IdleRef => BaseState_enterState params b
  | PanningRef => Panning_enterState params b
  | AnimatingRef => Animating_enterState params b
  end.

(** [DiagramBehavior.goto]. *)
Definition goto (state : string) (params : option Params.t) (b : Behavior K)
  : Outcome (Behavior K) :=
  goto_with enterState state params b.

(** [DiagramBehavior.reenter]. *)
Definition reenter (params : option Params.t) (b : Behavior K)
  : Outcome (Behavior K) :=
  match current b with
  | Some cur =>
      b1 <- leaveState cur (call (LeaveState cur) b) ;;
      match current b1 with
      | Some cur1 => enterState cur1 params (call (EnterState cur1 params) b1)
      | None => Throws b1
      end
  | None => Throws b
  end.

(** ** [Idle] *)

(** [Idle.handleMouseDown]. *)
Definition Idle_handleMouseDown (x y : R) (b : Behavior K)
  : Outcome (Behavior K) :=
  goto "panning" (Some (Params.mk (Some x) (Some y) None None)) b.

(** [Idle.handleNavigation]. *)
Definition Idle_handleNavigation (vertex : ViewVertex.t) (b : Behavior K)
  : Outcome (Behavior K) :=
  let d := diagram b in
  goto "animating"
       (Some (Params.mk None None None
                (Some (navigateToItem (zoomPanPreference d)
                                      (navigationVelocity d) vertex)))) b.

(** [Idle.getAppropriateScale]. *)
Definition getAppropriateScale : R := 1000.

(** [Idle.handleClick]. *)
Definition Idle_handleClick (x y : R) (double : bool) (b : Behavior K)
  : Outcome (Behavior K) :=
  let d := diagram b in
  if double then
    goto "animating"
         (Some (Params.mk None None None
                  (Some (navigateTo (Camera.castRayX x (camera d))
                                    (Camera.castRayY y (camera d))
                                    (navigationVelocity d)
                                    (zoomPanPreference d)
                                    getAppropriateScale)))) b
  else
    match scope_current d with
    | None => Returns b
    | Some cur =>
        goto "animating"
             (Some (Params.mk None None None
                      (Some (navigateToItem (zoomPanPreference d)
                                            (navigationVelocity d) cur)))) b
    end.

(** The scale [Idle.handleZoom] hands to [zoomToAbout]. *)
Definition zoomTarget (units : R) (b : Behavior K) : R :=
  let cam := camera (diagram b) in
  let zoom := Camera.scale cam in
  let factor := Math_pow 1.002 units in
  let target := factor * zoom in
  if respectLimits (diagram b) then
    let maxZoom := Idle.maxZoom (idle b) in
    if Rgeb target maxZoom then maxZoom
    else
      let limits := Idle.limits (idle b) in
      let w := Camera.visualWidth cam in
      let h := Camera.visualHeight cam in
      let l := Limits.right limits - Limits.left limits in
      let d := Limits.bottom limits - Limits.top limits in
      let limit := if Rgtb w h then w / l else h / d in
      if Rleb target limit then limit else target
  else target.

(** [Idle.handleZoom]. *)
Definition Idle_handleZoom (x y units : R) (b : Behavior K)
  : Outcome (Behavior K) :=
  let cam := camera (diagram b) in
  Returns (set_camera
             (Camera.zoomToAbout (zoomTarget units b)
                                 (Camera.castRayX x cam)
                                 (Camera.castRayY y cam) cam) b).

(** ** [Panning] *)

(** [Panning.damp]. *)
Definition damp (actual limit : R) : R :=
  let ratio := Rabs (actual / limit) in
  1 + log10 (num_or ratio 1).

(** [Panning.updateBanding]. *)
Definition updateBanding (horizontal lower value : bool) (p : Panning.t K)
  : Panning.t K :=
  let mk := Panning.mk (Panning.limits p) (Panning.anchorX p)
                       (Panning.anchorY p) (Panning.pressedX p)
                       (Panning.pressedY p) (Panning.kinetics p) in
  if horizontal then
    if lower
    then mk value (Panning.right p) (Panning.bottom p) (Panning.top p)
    else mk (Panning.left p) value (Panning.bottom p) (Panning.top p)
  else
    if lower
    then mk (Panning.left p) (Panning.right p) (Panning.bottom p) value
    else mk (Panning.left p) (Panning.right p) value (Panning.top p).

(** [Panning.handleLimits]: the offset for [moveTo] and the machine with the
    violated edges updated. *)
Definition handleLimits (horizontal : bool) (drag : R) (b : Behavior K)
  : R * Behavior K :=
  let cam := camera (diagram b) in
  let limit := Panning.limits (panning b) in
  let min := if horizontal then Camera.worldX cam else Camera.worldY cam in
  let wid := if horizontal then Camera.projWidth cam
             else Camera.projHeight cam in
  let lower := if horizontal then Limits.left limit else Limits.top limit in
  let higher := if horizontal then Limits.right limit
                else Limits.bottom limit in
  let band := rubberBanding (diagram b) in
  let scale := Camera.scale cam in
  let max := min + wid in
  if Rleb min lower then
    if band then
      let b1 := set_panning (updateBanding horizontal true true (panning b)) b in
      let factor := damp (drag / scale) lower in
      (factor * lower * scale, b1)
    else (lower + 1, b)
  else
    let b1 := set_panning (updateBanding horizontal true false (panning b)) b in
    if Rgeb max higher then
      if band then
        let b2 := set_panning
                    (updateBanding horizontal false true (panning b1)) b1 in
        let factor := damp (drag / scale + wid) higher in
        ((factor * higher - wid) * scale, b2)
      else (higher - 1, b1)
    else
      let b2 := set_panning
                  (updateBanding horizontal false false (panning b1)) b1 in
      (drag, b2).

(** [Panning.handleMouseMove]. *)
Definition Panning_handleMouseMove (x y : R) (b : Behavior K)
  : Outcome (Behavior K) :=
  let p := panning b in
  let dragX := Panning.pressedX p - Panning.anchorX p - x in
  let dragY := Panning.pressedY p - Panning.anchorY p - y in
  let '(limitX, limitY, b2) :=
    if respectLimits (diagram b) then
      let '(lx, b1) := handleLimits true dragX b in
      let '(ly, b2) := handleLimits false dragY b1 in
      (lx, ly, b2)
    else (dragX, dragY, b) in
  b3 <- (if useKinetics (diagram b2) then
           let p2 := panning b2 in
           match Panning.kinetics p2 with
           | Some k =>
               Returns (set_panning
                          (Panning.mk (Panning.limits p2)
                             (Panning.anchorX p2) (Panning.anchorY p2)
                             (Panning.pressedX p2) (Panning.pressedY p2)
                             (Some (kinetics_update dragX dragY k))
                             (Panning.left p2) (Panning.right p2)
                             (Panning.bottom p2) (Panning.top p2)) b2)
           | None => Throws b2
           end
         else Returns b2) ;;
  Returns (set_camera (Camera.moveTo limitX limitY (camera (diagram b3))) b3).

(** [Panning.calcDisplacement]. *)
Definition calcDisplacement (horizontal : bool) (min max : R)
    (p : Panning.t K) : R :=
  let limit := Panning.limits p in
  let lower := if horizontal then Panning.left p else Panning.top p in
  let upper := if horizontal then Panning.top p else Panning.bottom p in
  let left := if horizontal then Limits.left limit else Limits.top limit in
  let right := if horizontal then Limits.right limit
               else Limits.bottom limit in
  if lower then min - left else if upper then max - right else 0.

(** [Panning.isBanding]. *)
Definition isBanding (b : Behavior K) : bool :=
  let v := panning b in
  rubberBanding (diagram b) &&
  (Panning.left v || Panning.right v || Panning.bottom v || Panning.top v).

(** [Panning.isKinetic]: [None] when [this.kinetics] is read while still
    [undefined]. *)
Definition isKinetic (b : Behavior K) : option bool :=
  if useKinetics (diagram b) then
    match Panning.kinetics (panning b) with
    | Some k => Some (kinetics_hasEnoughMomentum k)
    | None => None
    end
  else Some false.

(** The interpolator [Panning.handleMouseUp] builds for a banding release. *)
Definition bandingCorrection (b : Behavior K) : Animation :=
  let ca := camera (diagram b) in
  let wX := Camera.worldX ca in
  let wW := wX + Camera.projWidth ca in
  let wY := Camera.worldY ca in
  let wH := wY + Camera.projHeight ca in
  let dx := calcDisplacement true wX wW (panning b) in
  let dy := calcDisplacement false wY wH (panning b) in
  centerOnWorld (wX + Camera.projWidth ca / 2 - dx)
                (wY + Camera.projHeight ca / 2 - dy) 300.

(** [Panning.handleMouseUp]. *)
Definition Panning_handleMouseUp (x y : R) (b : Behavior K)
  : Outcome (Behavior K) :=
  if isBanding b then
    if animatedNavigation (diagram b) then
      goto "animating"
           (Some (Params.mk None None (Some false)
                            (Some (bandingCorrection b)))) b
    else becomeIdle b
  else
    match isKinetic b with
    | None => Throws b
    | Some true =>
        match Panning.kinetics (panning b) with
        | Some k =>
            goto "animating"
                 (Some (Params.mk None None (Some false)
                          (Some (throwCamera (kinetics_speed k)
                                             (kinetics_angle k) 333)))) b
        | None => Throws b
        end
    | Some false => becomeIdle b
    end.

(** ** [Animating] *)

(** [Animating.handleZoom].  [this.behavior.handleZoom] goes to the state
    that is current after [becomeIdle]; that is the idle state (lemma
    [becomeIdle_current]), so the case of [AnimatingRef] is not reached. *)
Definition Animating_handleZoom (x y f : R) (b : Behavior K)
  : Outcome (Behavior K) :=
  if negb (Animating.forceAnimation (animating b)) then
    b1 <- becomeIdle b ;;
    match current b1 with
    | Some IdleRef => Idle_handleZoom x y f b1
    | Some PanningRef => Returns b1
    | Some AnimatingRef => Returns b1
    | None => Throws b1
    end
  else Returns b.

(** [Animating.handleMouseDown].  [this.behavior.handleMouseDown] goes to the
    state that is current after [goto('panning')]; that is the panning
    state (lemma [goto_panning_current]), so the case of [AnimatingRef] is
    not reached. *)
Definition Animating_handleMouseDown (x y : R) (b : Behavior K)
  : Outcome (Behavior K) :=
  if negb (Animating.forceAnimation (animating b)) then
    b1 <- goto "panning" None b ;;
    match current b1 with
    | Some IdleRef => Idle_handleMouseDown x y b1
    | Some PanningRef => Panning_handleMouseDown x y b1
    | Some AnimatingRef => Returns b1
    | None => Throws b1
    end
  else Returns b.

(** [Animating.handleStop]. *)
Definition Animating_handleStop (b : Behavior K) : Outcome (Behavior K) :=
  if negb (Animating.forceAnimation (animating b)) then becomeIdle b
  else Returns b.

(** [Animating.handleAbort]. *)
Definition Animating_handleAbort (b : Behavior K) : Outcome (Behavior K) :=
  becomeIdle b.

(** ** The events of [DiagramBehavior]

    Each one calls the handler of [this.current], which throws while there
    is no current state; a state without a handler of its own has the empty
    one of [BaseState]. *)

Definition handleNavigation (vertex : ViewVertex.t) (b : Behavior K)
  : Outcome (Behavior K) :=
  match current b with
  | Some IdleRef => Idle_handleNavigation vertex b
  | Some PanningRef => Returns b
  | Some AnimatingRef => Returns b
  | None => Throws b
  end.

Definition handleClick (x y : R) (double : bool) (b : Behavior K)
  : Outcome (Behavior K) :=
  match current b with
  | Some IdleRef => Idle_handleClick x y double b
  | Some PanningRef => Returns b
  | Some AnimatingRef => Returns b
  | None => Throws b
  end.

Definition handleMouseDown (x y : R) (b : Behavior K)
  : Outcome (Behavior K) :=
  match current b with
  | Some IdleRef => Idle_handleMouseDown x y b
  | Some PanningRef => Panning_handleMouseDown x y b
  | Some AnimatingRef => Animating_handleMouseDown x y b
  | None => Throws b
  end.

Definition handleMouseMove (x y : R) (b : Behavior K)
  : Outcome (Behavior K) :=
  match current b with
  | Some IdleRef => Returns b
  | Some PanningRef => Panning_handleMouseMove x y b
  | Some AnimatingRef => Returns b
  | None => Throws b
  end.

Definition handleMouseUp (x y : R) (b : Behavior K)
  : Outcome (Behavior K) :=
  match current b with
  | Some IdleRef => Returns b
  | Some PanningRef => Panning_handleMouseUp x y b
  | Some AnimatingRef => Returns b
  | None => Throws b
  end.

Definition handleZoom (x y f : R) (b : Behavior K) : Outcome (Behavior K) :=
  match current b with
  | Some IdleRef => Idle_handleZoom x y f b
  | Some PanningRef => Returns b
  | Some AnimatingRef => Animating_handleZoom x y f b
  | None => Throws b
  end.

Definition handleKey (b : Behavior K) : Outcome (Behavior K) :=
  match current b with
  | Some _ => Returns b
  | None => Throws b
  end.

Definition handleAbort (b : Behavior K) : Outcome (Behavior K) :=
  match current b with
  | Some IdleRef => Returns b
  | Some PanningRef => Returns b
  | Some AnimatingRef => Animating_handleAbort b
  | None => Throws b
  end.

Definition handleStop (b : Behavior K) : Outcome (Behavior K) :=
  match current b with
  | Some IdleRef => Returns b
  | Some PanningRef => Returns b
  | Some AnimatingRef => Animating_handleStop b
  | None => Throws b
  end.

(** ** Construction and the queries *)

(** The machine when the constructor starts: the field initializers of the
    three state objects, no current and no last state. *)
Definition fresh (d : Diagram) : Behavior K :=
  mkBehavior None None None
             (Idle.mk default_limits 10)
             (Panning.mk default_limits 0 0 0 0 None false false false false)
             (Animating.mk default_limits false None)
             d [].

(** The constructor of [DiagramBehavior]: after [goto('idle', null)] it
    assigns [this.lookup['idle']] to the property [lastState]. *)
Definition construct (d : Diagram) : Outcome (Behavior K) :=
  b <- goto "idle" None (fresh d) ;;
  Returns (set_lastState_own (lookup "idle") b).

(** [currentState()]. *)
Definition currentState (b : Behavior K) : Query :=
  match current b with
  | Some s => Value (name s)
  | None => TypeError
  end.

(** The method [lastState] of the class: [return this.last.name]. *)
Definition lastState_method (b : Behavior K) : Query :=
  match last b with
  | Some s => Value (name s)
  | None => TypeError
  end.

(** The call [behavior.lastState()]: an own property [lastState] that holds
    a state object hides the method and is not callable. *)
Definition lastState (b : Behavior K) : Query :=
  match lastState_own b with
  | Some _ => TypeError
  | None => lastState_method b
  end.

(** ** The machine as a transition system *)

(** What the host can call on a constructed machine. *)
Inductive Event : Type :=
| Navigation (vertex : ViewVertex.t)
| Click (x y : R) (double : bool)
| MouseDown (x y : R)
| MouseMove (x y : R)
| MouseUp (x y : R)
| Zoom (x y f : R)
| Key
| Abort
| StopRequest
| Goto (state : string) (params : option Params.t)
| Reenter (params : option Params.t).

Definition handle (e : Event) (b : Behavior K) : Outcome (Behavior K) :=
  match e with
  | Navigation vertex => handleNavigation vertex b
  | Click x y double => handleClick x y double b
  | MouseDown x y => handleMouseDown x y b
  | MouseMove x y => handleMouseMove x y b
  | MouseUp x y => handleMouseUp x y b
  | Zoom x y f => handleZoom x y f b
  | Key => handleKey b
  | Abort => handleAbort b
  | StopRequest => handleStop b
  | Goto state params => goto state params b
  | Reenter params => reenter params b
  end.

(** The machines that construction and events lead to; an event that throws
    leaves the machine as it was at the throw. *)
Inductive reachable : Behavior K -> Prop :=
| reachable_construct (d : Diagram) :
    reachable (machine (construct d))
| reachable_handle (e : Event) (b : Behavior K) :
    reachable b -> reachable (machine (handle e b)).

End Machine.

(** * [ShapeRenderer.attach] *)

(** What [attach] throws. *)
Inductive AttachError : Type :=
| NoRenderedVisual
| NoGroupVisual
| NoContentContainer.

(** [content.addChild(child)]. *)
Definition addChild (child content : DisplayObject) : DisplayObject :=
  match content with
  | Container id cs => Container id (cs ++ [child])
  end.

(** Assignment to [xs[i]] of an existing element. *)
Fixpoint replace_nth {A : Type} (i : nat) (v : A) (xs : list A) : list A :=
  match xs, i with
  | [], _ => []
  | _ :: rest, O => v :: rest
  | x :: rest, S j => x :: replace_nth j v rest
  end.

(** [ShapeRenderer.attach(node, group)]: the error thrown, or the group with
    the visual of the node added to the content container [children[1]] of
    the visual of the group. *)
Definition attach (node group : ViewVertex.t) : AttachError + ViewVertex.t :=
  match ViewVertex.visual node with
  | None => inl NoRenderedVisual
  | Some child =>
      match ViewVertex.visual group with
      | None => inl NoGroupVisual
      | Some root =>
          match nth_error (children root) 1 with
          | None => inl NoContentContainer
          | Some content =>
              let root' :=
                match root with
                | Container id cs =>
                    Container id (replace_nth 1 (addChild child content) cs)
                end in
              inr (ViewVertex.mk (ViewVertex.name group) (Some root'))
          end
      end
  end.

(** * A kinetics to run the machine with *)

(** An instance of the kinetics interface for concrete runs: the state is the
    answer of [hasEnoughMomentum()]; [update] keeps it and [reset] clears
    it; the speed is [1] with momentum and [0] without, the angle [0]. *)
#[export] Instance flag_kinetics : KineticsOps bool := {|
  kinetics_new := false;
  kinetics_update := fun _ _ k => k;
  kinetics_reset := fun _ => false;
  kinetics_speed := fun k => if k then 1 else 0;
  kinetics_angle := fun _ => 0;
  kinetics_hasEnoughMomentum := fun k => k
|}.

(** A diagram with the camera at the origin, scale [1], in a viewport of
    [800 x 600], with every option switched on. *)
Definition sample_diagram : Diagram :=
  mkDiagram (Camera.mk 0 0 1 800 600) true true true true 0.5 1 None.

(** The machine constructed over [d] after a pointer-down at [(400, 300)]:
    it is in the panning state. *)
Definition pressed (d : Diagram) : Behavior bool :=
  machine (b <- construct d ;; handleMouseDown 400 300 b).

(** A diagram whose camera has its world origin on the left bound. *)
Definition bound_diagram (banding : bool) : Diagram :=
  mkDiagram (Camera.mk (-800) 0 1 800 600) true banding true true 0.5 1 None.

(** The invariant of the machine that [leaveState] relies on: the panning
    state is current only after its [enterState] has made [kinetics]. *)
Definition kinetics_ready {K : Type} (b : Behavior K) : Prop :=
  current b = Some PanningRef -> Panning.kinetics (panning b) <> None.

(** * Statements of the spec, in its own words *)

(** The scale after a wheel event as the spec words it:
    [current_scale * 1.002^units], clamped above by the maximum zoom and,
    when limits are respected, clamped below by the minimum zoom, the ratio
    of the viewport size to the extent of the limits rectangle. *)
Definition spec_zoomTarget {K : Type} (units : R) (b : Behavior K) : R :=
  let cam := camera (diagram b) in
  let limits := Idle.limits (idle b) in
  let w := Camera.visualWidth cam in
  let h := Camera.visualHeight cam in
  let minZoom := if Rgtb w h
                 then w / (Limits.right limits - Limits.left limits)
                 else h / (Limits.bottom limits - Limits.top limits) in
  let capped := Rmin (Math_pow 1.002 units * Camera.scale cam)
                     (Idle.maxZoom (idle b)) in
  if respectLimits (diagram b) then Rmax capped minZoom else capped.



(** The release of a pan as the spec words it: any violated edge gives the
    banding correction, else momentum gives the fling, else idle. *)
Inductive Release : Type := ReleaseCorrect | ReleaseFling | ReleaseIdle.

Definition spec_release {K : Type} {kops : KineticsOps K} (b : Behavior K)
  : Release :=
  let v := panning b in
  if Panning.left v || Panning.right v || Panning.bottom v || Panning.top v
  then ReleaseCorrect
  else match Panning.kinetics v with
       | Some k => if kinetics_hasEnoughMomentum k then ReleaseFling
                   else ReleaseIdle
       | None => ReleaseIdle
       end.


(** The camera rectangle and the bounds [handleLimits] compares, along the
    axis it is called for. *)
Definition axis_min (horizontal : bool) (cam : Camera.t) : R :=
  if horizontal then Camera.worldX cam else Camera.worldY cam.

Definition axis_extent (horizontal : bool) (cam : Camera.t) : R :=
  if horizontal then Camera.projWidth cam else Camera.projHeight cam.

Definition axis_lower (horizontal : bool) (l : Limits.t) : R :=
  if horizontal then Limits.left l else Limits.top l.

Definition axis_higher (horizontal : bool) (l : Limits.t) : R :=
  if horizontal then Limits.right l else Limits.bottom l.

(** Decides a comparison of the camera rectangle with the bounds at a
    concrete machine. *)
Ltac bounds :=
  unfold axis_min, axis_lower, axis_higher, axis_extent, Camera.worldX,
    Camera.worldY, Camera.projWidth, Camera.projHeight;
  simpl; lra.

(** * Invariants of the state machine *)

(** The fields of the panning state as [Panning.leaveState] leaves them. *)
Definition panning_reset {K : Type} (p : Panning.t K) : Prop :=
  Panning.anchorX p = 0 /\ Panning.anchorY p = 0 /\
  Panning.pressedX p = 0 /\ Panning.pressedY p = 0 /\
  Panning.left p = false /\ Panning.right p = false /\
  Panning.bottom p = false /\ Panning.top p = false.

(** What holds of every machine between two events: there is a current
    state; the panning state is current only with its kinetics made; an
    animation is held only while animating; the panning state is reset
    while it is not current. *)
Definition settled {K : Type} (b : Behavior K) : Prop :=
  (exists s, current b = Some s) /\
  kinetics_ready b /\
  (current b <> Some AnimatingRef ->
   Animating.animation (animating b) = None) /\
  (current b <> Some PanningRef -> panning_reset (panning b)).

(** The machine right after [leaveState] of its current state. *)
Definition cleared {K : Type} (b : Behavior K) : Prop :=
  Animating.animation (animating b) = None /\
  panning_reset (panning b).

(** The events of [DiagramEvents], as opposed to the calls of
    [StateMachine]. *)
Definition input_event (e : Event) : bool :=
  match e with
  | Goto _ _ | Reenter _ => false
  | _ => true
  end.

(** The machines that construction and input events alone lead to. *)
Inductive driven {K : Type} {kops : KineticsOps K} : Behavior K -> Prop :=
| driven_construct (d : Diagram) :
    driven (machine (construct d))
| driven_input (e : Event) (b : Behavior K) :
    input_event e = true -> driven b -> driven (machine (handle e b)).

(** A log of calls in which an animation is played only while none is
    playing and stopped only while it is the one playing, with the animation
    that plays at its end. *)
Inductive plays : list Call -> option Animation -> Prop :=
| plays_nil : plays [] None
| plays_play (l : list Call) (a : Animation) :
    plays l None -> plays (l ++ [Play a]) (Some a)
| plays_stop (l : list Call) (a : Animation) :
    plays l (Some a) -> plays (l ++ [Stop a]) None
| plays_leave (l : list Call) (o : option Animation) (s : StateRef) :
    plays l o -> plays (l ++ [LeaveState s]) o
| plays_enter (l : list Call) (o : option Animation) (s : StateRef)
    (params : option Params.t) :
    plays l o -> plays (l ++ [EnterState s params]) o.

(** The log of a machine agrees with the animation it holds. *)
Definition plays_held {K : Type} (b : Behavior K) : Prop :=
  plays (calls b) (Animating.animation (animating b)).

(** * The shape renderer *)

(** [ShapeType] of [common/shapes]. *)
Inductive ShapeType : Type :=
| NONE | CUSTOM | COMPOSITE | ICON | SQUARE | RECTANGLE | ROUNDED | CIRCLE
| ELLIPSE | DIAMOND | TRAPEZOID | PARALLELOID | HOURGLASS | ARC | TRIANGLE
| RING.

(** The part of [Shape] the renderer reads: the type and the corner radius
    [a], which may be unset. *)
Module Shape.
Record t : Type := mk {
  type : ShapeType;
  a : option R
}.
End Shape.

(** A colour as a style gives it: nothing, a number or a string. *)
Inductive ColorSpec : Type :=
| ColorMissing
| ColorNumber (n : Z)
| ColorName (s : string).

(** What [getColor] returns: [null], a number, or what a property of
    [Object.prototype] holds when the name of the colour is one. *)
Inductive ColorValue : Type :=
| NoColor
| ColorCode (n : Z)
| Inherited (key : string).

(** The part of [Style] (of [common/styling], not part of the sources) that
    [renderShape] and [cacheShape] read. *)
Module Style.
Record t : Type := mk {
  fill : ColorSpec;
  stroke : ColorSpec;
  shape : Shape.t
}.
End Style.

(** The dictionary [Colors]. *)
Definition Colors : list (string * Z) :=
  [("cornflowerblue"%string, 0x6495ED%Z);
   ("mediumseagreen"%string, 0x3CB371%Z);
   ("salmon"%string, 0xFFA07A%Z);
   ("red"%string, 0xFF0000%Z);
   ("goldenrod"%string, 0xDAA520%Z);
   ("darkgrey"%string, 0xA9A9A9%Z);
   ("darkgray"%string, 0xA9A9A9%Z);
   ("lightgray"%string, 0xD3D3D3%Z);
   ("lightgrey"%string, 0xD3D3D3%Z);
   ("black"%string, 0x000000%Z);
   ("white"%string, 0xffffff%Z)].

(** The truth value of a colour in a condition. *)
Definition truthy (c : ColorValue) : bool :=
  match c with
  | NoColor => false
  | ColorCode n => negb (Z.eqb n 0)
  | Inherited _ => true
  end.

(** The calls on a [PIXI.Graphics] and the warning on the console. *)
Inductive Draw : Type :=
| BeginFill (c : ColorValue)
| EndFill
| LineColor (c : ColorValue)
| LineStyle (width : R) (c : ColorValue)
| DrawRect (l t w h : R)
| DrawCircle (x y r : R)
| DrawRoundedRect (l t w h a : R)
| MoveTo (x y : R)
| LineTo (x y : R)
| Warn (type : ShapeType).

(** The calls on the 2D context of the canvas [cacheShape] draws on. *)
Inductive Canvas : Type :=
| FillStyle (c : ColorSpec)
| FillRect (x y w h : R)
| BeginPath
| ClosePath
| Fill
| CMoveTo (x y : R)
| CLineTo (x y : R)
| Arc (x y r a0 a1 : R)
| QuadraticCurveTo (cx cy x y : R)
| CWarn (type : ShapeType).

(** A leaf of the view model with its box, as [renderItem] reads it. *)
Module ViewItem.
Record t : Type := mk {
  vertex : ViewVertex.t;
  left : R;
  top : R;
  width : R;
  height : R;
  style : option Style.t
}.
End ViewItem.

(** A group of the view model, as [renderGroup] reads it. *)
Module ViewGroup.
Record t : Type := mk {
  vertex : ViewVertex.t;
  left : R;
  top : R;
  width : R;
  height : R;
  scale : R
}.
End ViewGroup.

(** What [renderGroup] sets on the objects it makes, beside the tree of
    display objects itself. *)
Module GroupVisual.
Record t : Type := mk {
  size : R * R;
  position : option (R * R);
  shape : list Draw;
  content_scale : R
}.
End GroupVisual.

Section Renderer.

(** Whether a name is a property of [Object.prototype] in the host. *)
Variable prototype_has : string -> bool.

(** [Colors[color]]. *)
Definition Colors_get (color : string) : ColorValue :=
  match property Colors color with
  | Some n => ColorCode n
  | None => if prototype_has color then Inherited color else NoColor
  end.

(** [ShapeRenderer.getColor]. *)
Definition getColor (color : ColorSpec) : ColorValue :=
  match color with
  | ColorMissing => NoColor
  | ColorNumber n => if Z.eqb n 0 then NoColor else ColorCode n
  | ColorName s =>
      if String.eqb s "" then NoColor
      else
        let c := Colors_get s in
        if truthy c then c else ColorCode 0x000000
  end.

(** The [switch] of [renderShape].  The label [case ShapeType.SQUARE,
    ShapeType.RECTANGLE] is a comma expression: its value is
    [ShapeType.RECTANGLE]. *)
Definition renderShape_switch (style : Style.t) (fill : ColorValue)
    (l t w h : R) : list Draw :=
  match Shape.type (Style.shape style) with
  | RECTANGLE => [DrawRect l t w h]
  | CIRCLE =>
      let radius := w / 2 in
      [DrawCircle (l + radius) (t + radius) (w / 2)]
  | DIAMOND =>
      [MoveTo (l + w / 2) t;
       LineTo (l + w) (t + h / 2);
       LineTo (l + w / 2) (t + h);
       LineTo l (t + h / 2)]
  | TRIANGLE =>
      [MoveTo (l + w / 2) t;
       LineTo l (t + h);
       LineTo (l + w) (t + h)]
  | ROUNDED =>
      let a := opt_num_or (Shape.a (Style.shape style)) 12 in
      [DrawRoundedRect l t w h a]
  | HOURGLASS =>
      [MoveTo l t;
       LineTo (l + w) t;
       LineTo (l + w / 1.8) (t + h / 2);
       LineTo (l + w / 2.2) (t + h / 2);
       EndFill;
       BeginFill fill;
       MoveTo l (t + h);
       LineTo (l + w / 2.2) (t + h / 2);
       LineTo (l + w / 1.8) (t + h / 2);
       LineTo (l + w) (t + h)]
  | other => [Warn other]
  end.

(** [ShapeRenderer.renderShape]: the calls made on [ctx], in order. *)
Definition renderShape (style : Style.t) (item : ViewItem.t) : list Draw :=
  let fill := getColor (Style.fill style) in
  let stroke := getColor (Style.stroke style) in
  (if truthy fill then [BeginFill fill] else [])
  ++ (if truthy stroke then [LineColor stroke] else [])
  ++ renderShape_switch style fill (ViewItem.left item) (ViewItem.top item)
       (ViewItem.width item) (ViewItem.height item)
  ++ (if truthy fill then [EndFill] else []).

(** [ShapeRenderer.cacheShape]: the calls made on the context of the
    [16 x 16] canvas, in order. *)
Definition cacheShape (style : Style.t) : list Canvas :=
  FillStyle (Style.fill style) ::
  match Shape.type (Style.shape style) with
  | RECTANGLE => [FillRect 0 0 16 16]
  | TRIANGLE =>
      [BeginPath; CMoveTo 0 16; CLineTo 8 0; CLineTo 16 16; ClosePath; Fill]
  | CIRCLE => [BeginPath; Arc 8 8 8 0 (2 * PI); ClosePath; Fill]
  | ROUNDED =>
      let r := 2 in
      [BeginPath;
       CMoveTo r 0;
       CLineTo (16 - r) 0;
       QuadraticCurveTo 16 0 16 r;
       CLineTo 16 (16 - r);
       QuadraticCurveTo 16 16 (16 - r) 16;
       CLineTo r 16;
       QuadraticCurveTo 0 16 0 (16 - r);
       CLineTo 0 r;
       QuadraticCurveTo 0 0 r 0;
       ClosePath;
       Fill]
  | HOURGLASS =>
      [BeginPath; CMoveTo 2 0; CLineTo 14 0; CLineTo 9 8; CLineTo 14 16;
       CLineTo 2 16; CLineTo 7 8; ClosePath; Fill]
  | DIAMOND =>
      [BeginPath; CMoveTo 8 0; CLineTo 16 8; CLineTo 8 16; CLineTo 0 8;
       ClosePath; Fill]
  | other => [CWarn other]
  end.

(** [ShapeRenderer.renderItem(item, visual)]: the item and the calls made on
    the graphics [visual]; reading [style.fill] of a missing style
    throws. *)
Definition renderItem (item : ViewItem.t) (visual : DisplayObject)
  : Outcome (ViewItem.t * list Draw) :=
  match ViewVertex.visual (ViewItem.vertex item) with
  | Some _ => Returns (item, [])
  | None =>
      match ViewItem.style item with
      | None => Throws (item, [])
      | Some style =>
          Returns
            (ViewItem.mk
               (ViewVertex.mk (ViewVertex.name (ViewItem.vertex item))
                              (Some visual))
               (ViewItem.left item) (ViewItem.top item)
               (ViewItem.width item) (ViewItem.height item)
               (ViewItem.style item),
             renderShape style item)
      end
  end.

(** [ShapeRenderer.renderGroup(group, topLevel, oblique)].  The three
    objects it makes get the identities [next], [next + 1] and
    [next + 2]: the root, the shape and the content container.  The result
    is the group and, when a visual was made, what was set on it. *)
Definition renderGroup (next : nat) (group : ViewGroup.t)
    (topLevel oblique : bool) : ViewGroup.t * option GroupVisual.t :=
  match ViewVertex.visual (ViewGroup.vertex group) with
  | Some _ => (group, None)
  | None =>
      let w := ViewGroup.width group in
      let h := ViewGroup.height group in
      let position :=
        if negb topLevel
        then Some (ViewGroup.left group, ViewGroup.top group)
        else None in
      let shape :=
        if oblique then
          [BeginFill (ColorCode 0xeeeeee); DrawRoundedRect 0 0 w h 12;
           EndFill]
        else if negb topLevel then
          [LineStyle 16 (ColorCode 0xeeeeee); DrawRoundedRect 0 0 w h 12]
        else [] in
      let root := Container next [] in
      let root := addChild (Container (next + 1) []) root in
      let root := addChild (Container (next + 2) []) root in
      (ViewGroup.mk
         (ViewVertex.mk (ViewVertex.name (ViewGroup.vertex group))
                        (Some root))
         (ViewGroup.left group) (ViewGroup.top group) w h
         (ViewGroup.scale group),
       Some (GroupVisual.mk (w, h) position shape (ViewGroup.scale group)))
  end.

End Renderer.


(** Whether a call draws a primitive. *)
Definition draws (d : Draw) : bool :=
  match d with
  | DrawRect _ _ _ _ | DrawCircle _ _ _ | DrawRoundedRect _ _ _ _ _
  | MoveTo _ _ | LineTo _ _ => true
  | _ => false
  end.

Definition canvas_draws (c : Canvas) : bool :=
  match c with
  | FillStyle _ | CWarn _ => false
  | _ => true
  end.

(** The shape types with a case of their own in the two [switch]es. *)
Definition drawn (type : ShapeType) : bool :=
  match type with
  | RECTANGLE | CIRCLE | DIAMOND | TRIANGLE | ROUNDED | HOURGLASS => true
  | _ => false
  end.

(** Whether the graphics is filling after a sequence of calls, from the
    state [on] before them: [beginFill] switches filling on, [endFill]
    off. *)
Fixpoint filling (on : bool) (ds : list Draw) : bool :=
  match ds with
  | [] => on
  | BeginFill _ :: rest => filling true rest
  | EndFill :: rest => filling false rest
  | _ :: rest => filling on rest
  end.


(** * The camera of the PIXI layer *)

(** A label of the overlay, as [scaleWorldTo] reads and writes it. *)
Module XText.
Record t : Type := mk {
  baseScale : R;
  upperScale : R;
  scale : R * R;
  visible : bool
}.
End XText.

(** [PixiCamera]: the scale and position of the world and of the overlay,
    and the labels that are the children of the overlay. *)
Module PixiCamera.
Record t : Type := mk {
  worldScale : R * R;
  worldPosition : R * R;
  overlayPosition : R * R;
  overlayScale : R * R;
  labels : list XText.t
}.
End PixiCamera.

(** [PixiCamera.translateWorldTo]. *)
Definition translateWorldTo (tX tY : R) (c : PixiCamera.t) : PixiCamera.t :=
  PixiCamera.mk (PixiCamera.worldScale c) (tX, tY) (tX, tY)
                (PixiCamera.overlayScale c) (PixiCamera.labels c).

(** The body of the loop of [scaleWorldTo]. *)
Definition scaleLabel (zoom : R) (label : XText.t) : XText.t :=
  let s := XText.baseScale label / zoom in
  XText.mk (XText.baseScale label) (XText.upperScale label) (s, s)
           (Rgtb (XText.upperScale label) s).

(** [PixiCamera.scaleWorldTo]. *)
Definition scaleWorldTo (zoom last : R) (c : PixiCamera.t) : PixiCamera.t :=
  PixiCamera.mk (zoom, zoom) (PixiCamera.worldPosition c)
                (PixiCamera.overlayPosition c) (zoom, zoom)
                (map (scaleLabel zoom) (PixiCamera.labels c)).

(** * The quality of the PIXI layer *)

(** The frame interval: unset, a number, or the infinity that dividing by
    zero gives. *)
Inductive Frames : Type :=
| FramesUnset
| FramesEvery (ms : R)
| FramesNever.

Module PixiLayer.
Record t : Type := mk {
  quality : option R;
  frames : Frames
}.
End PixiLayer.

(** [PixiLayer.setQuality]. *)
Definition setQuality (quality : R) (layer : PixiLayer.t) : PixiLayer.t :=
  if Rgtb 0 quality || Rgtb quality 1 then layer
  else PixiLayer.mk (Some quality)
         (if Req_dec_T quality 0 then FramesNever
          else FramesEvery (1000 / (60 * quality))).

(** * The split panes *)

(** The styles [DoubleSplit.adjust] sets, in percent. *)
Module DoubleSplit.
Record t : Type := mk {
  isDragging : bool;
  left_width : R;
  divider_left : R;
  right_left : R;
  right_width : R
}.
End DoubleSplit.

(** [DoubleSplit.adjust]. *)
Definition adjust (divider : R) (s : DoubleSplit.t) : DoubleSplit.t :=
  let left := if Rgtb 0 divider then 0
              else if Rgtb divider 100 then 100 else divider in
  DoubleSplit.mk (DoubleSplit.isDragging s) left left left (100 - left).

(** [DoubleSplit.onMouseMove], with [event.pageX] and
    [window.innerWidth]. *)
Definition DoubleSplit_onMouseMove (pageX innerWidth : R)
    (s : DoubleSplit.t) : DoubleSplit.t :=
  if DoubleSplit.isDragging s then adjust (pageX / innerWidth) s else s.

(** The styles [TripleSplit.readjust] sets, in percent. *)
Module TripleSplit.
Record t : Type := mk {
  leftContent_width : R;
  leftDiv_left : R;
  center_left : R;
  center_width : R;
  rightDiv_left : R;
  rightContent_left : R;
  rightContent_width : R
}.
End TripleSplit.

(** [TripleSplit.readjust]. *)
Definition readjust (l r : R) : TripleSplit.t :=
  let left := if Rgtb 0 l then 0 else if Rgtb l 100 then 100 else l in
  let right := if Rgtb 0 r then 0 else if Rgtb r 100 then 100 else r in
  let adjLeft := Rmin left right in
  let adjRight := Rmax left right in
  TripleSplit.mk adjLeft adjLeft adjLeft (100 - adjLeft - adjRight)
                 adjRight adjRight (100 - adjRight).

(** * The palette and the model service *)

(** [Math.floor]. *)
Definition Math_floor (r : R) : Z := Int_part r.

(** A category of the palette registry, as [onIconSelect] reads it. *)
Module Category.
Record t : Type := mk {
  name : string;
  components : list string
}.
End Category.

Module Palette.
Record t : Type := mk {
  categories : list Category.t;
  components : option (list string);
  selected : option string;
  translateY : option Z
}.
End Palette.

(** [Palette.onIconSelect], with the vertical offset [off.y] of the event
    and whether the element [select] is there. *)
Definition onIconSelect (y : R) (select : bool) (p : Palette.t)
  : Palette.t :=
  let index := Math_floor (y / 32) in
  if (Z.geb index 0
      && Z.ltb index (Z.of_nat (List.length (Palette.categories p)))
      && select)%bool
  then
    match nth_error (Palette.categories p) (Z.to_nat index) with
    | Some c =>
        Palette.mk (Palette.categories p) (Some (Category.components c))
                   (Some (Category.name c)) (Some (index * 32)%Z)
    | None => p
    end
  else p.

(** [ModelService.names]. *)
Definition names : list string :=
  ["Population"; "Market Size"; "Price"; "Stock"; "Work in Progress";
   "Deliverables"; "Workforce"; "Customers"; "Prospects"; "Market Growth";
   "Ramp Up"; "Projects"; "Delayed Shippings"; "Processed"; "Inventory";
   "Unfinished Parts"; "Spare Parts"; "Sales Volume"; "Level";
   "Persons"]%string.

(** [ModelService.randomName], over the value of [Math.random()]; [None] is
    [undefined]. *)
Definition randomName (random : R) : option string :=
  let n := Math_floor (random * INR (List.length names)) in
  nth_error names (Z.to_nat (if Z.ltb n 0 then 0%Z else n)).

(** * Machines and scenes for the concrete runs *)

(** The machine constructed over the sample diagram. *)
Definition constructed : Behavior bool := machine (construct sample_diagram).

(** The same machine playing a correction that is not forced. *)
Definition correcting : Behavior bool :=
  machine (goto "animating"
             (Some (Params.mk None None (Some false)
                      (Some (centerOnWorld 0 0 300)))) constructed).

(** The machine pressed over a camera on the left bound, with the left edge
    marked violated. *)
Definition banded : Behavior bool :=
  set_panning
    (Panning.mk default_limits (-800) 0 400 300 (Some false)
                true false false false)
    (pressed (bound_diagram true)).




(** * Theorems about the camera *)

Lemma castRayX_screenX (c : Camera.t) (wx : R) :
  Camera.scale c <> 0 -> Camera.castRayX (Camera.screenX wx c) c = wx.
Proof.
  intros Hs. unfold Camera.castRayX, Camera.worldX, Camera.screenX.
  field. exact Hs.
Qed.

Lemma castRayY_screenY (c : Camera.t) (wy : R) :
  Camera.scale c <> 0 -> Camera.castRayY (Camera.screenY wy c) c = wy.
Proof.
  intros Hs. unfold Camera.castRayY, Camera.worldY, Camera.screenY.
  field. exact Hs.
Qed.

(** C1: [zoomToAbout(s, ax, ay)] keeps the anchor fixed on screen.  For a
    camera of positive scale and a positive target scale, the screen
    projection of the world point [(ax, ay)] is the same before and after
    the call, and the world point found under that screen position after
    the call is again [(ax, ay)]. *)
Theorem zoomToAbout_anchor_fixed (c : Camera.t) (s ax ay : R) :
  0 < Camera.scale c -> 0 < s ->
  let c' := Camera.zoomToAbout s ax ay c in
  Camera.screenX ax c' = Camera.screenX ax c /\
  Camera.screenY ay c' = Camera.screenY ay c /\
  Camera.castRayX (Camera.screenX ax c) c' = ax /\
  Camera.castRayY (Camera.screenY ay c) c' = ay /\
  Camera.scale c' = s.
Proof.
  intros Hs0 Hs c'.
  assert (HX : Camera.screenX ax c' = Camera.screenX ax c).
  { unfold c', Camera.zoomToAbout, Camera.screenX; simpl. ring. }
  assert (HY : Camera.screenY ay c' = Camera.screenY ay c).
  { unfold c', Camera.zoomToAbout, Camera.screenY; simpl. ring. }
  repeat split; try assumption.
  - rewrite <- HX. apply castRayX_screenX. simpl. lra.
  - rewrite <- HY. apply castRayY_screenY. simpl. lra.
Qed.

Lemma zoomToAbout_anchor_fixed_witness :
  let c := Camera.mk 0 0 1 800 600 in
  let c' := Camera.zoomToAbout 2 400 300 c in
  Camera.screenX 400 c' = Camera.screenX 400 c /\
  Camera.screenY 300 c' = Camera.screenY 300 c /\
  Camera.castRayX (Camera.screenX 400 c) c' = 400 /\
  Camera.castRayY (Camera.screenY 300 c) c' = 300 /\
  Camera.scale c' = 2.
Proof.
  apply (zoomToAbout_anchor_fixed (Camera.mk 0 0 1 800 600) 2 400 300);
    simpl; lra.
Defined.

(** * Facts about the comparisons *)

Lemma Rleb_true (a b : R) : a <= b -> Rleb a b = true.
Proof. intros H. unfold Rleb. destruct (Rle_dec a b); [reflexivity | contradiction]. Qed.

Lemma Rleb_false (a b : R) : b < a -> Rleb a b = false.
Proof. intros H. unfold Rleb. destruct (Rle_dec a b); [lra | reflexivity]. Qed.

Lemma Rgtb_true (a b : R) : b < a -> Rgtb a b = true.
Proof. intros H. unfold Rgtb. destruct (Rlt_dec b a); [reflexivity | contradiction]. Qed.

Lemma Rgtb_false (a b : R) : a <= b -> Rgtb a b = false.
Proof. intros H. unfold Rgtb. destruct (Rlt_dec b a); [lra | reflexivity]. Qed.

Lemma num_or_nonzero (x d : R) : x <> 0 -> num_or x d = x.
Proof. intros H. unfold num_or. destruct (Req_dec_T x 0); [contradiction | reflexivity]. Qed.


(** * The state machine: [goto] *)

Section MachineFacts.

Context {K : Type} {kops : KineticsOps K}.

Lemma lookup_cases (state : string) :
  lookup state =
  if String.eqb "animating" state then Some AnimatingRef
  else if String.eqb "panning" state then Some PanningRef
  else if String.eqb "idle" state then Some IdleRef
  else None.
Proof. reflexivity. Qed.

Lemma lookup_supported (state : string) :
  match lookup state with
  | Some s => In state supportedStates /\ name s = state
  | None => ~ In state supportedStates
  end.
Proof.
  rewrite lookup_cases. unfold supportedStates.
  destruct (String.eqb_spec "animating" state) as [<- | Ha].
  { split; [right; right; left|]; reflexivity. }
  destruct (String.eqb_spec "panning" state) as [<- | Hp].
  { split; [right; left|]; reflexivity. }
  destruct (String.eqb_spec "idle" state) as [<- | Hi].
  { split; [left|]; reflexivity. }
  intros H. destruct H as [H | [H | [H | []]]]; congruence.
Qed.

Lemma leaveState_current (s : StateRef) (b b1 : Behavior K) :
  leaveState s b = Returns b1 -> current b1 = current b.
Proof.
  destruct s; simpl; unfold BaseState_leaveState, Panning_leaveState,
    Animating_leaveState.
  - intros [= <-]. reflexivity.
  - destruct (Panning.kinetics (panning b)); intros [= <-]. reflexivity.
  - destruct (Animating.animation (animating b)); intros [= <-]; reflexivity.
Qed.

Lemma leaveState_last (s : StateRef) (b b1 : Behavior K) :
  leaveState s b = Returns b1 -> last b1 = last b.
Proof.
  destruct s; simpl; unfold BaseState_leaveState, Panning_leaveState,
    Animating_leaveState.
  - intros [= <-]. reflexivity.
  - destruct (Panning.kinetics (panning b)); intros [= <-]. reflexivity.
  - destruct (Animating.animation (animating b)); intros [= <-]; reflexivity.
Qed.

(** [leaveState] only adds calls, and only stops of animations. *)
Lemma leaveState_calls (s : StateRef) (b b1 : Behavior K) :
  leaveState s b = Returns b1 ->
  exists stops, calls b1 = calls b ++ stops /\
                forall c, In c stops -> exists a, c = Stop a.
Proof.
  destruct s; simpl; unfold BaseState_leaveState, Panning_leaveState,
    Animating_leaveState.
  - intros [= <-]. exists []. rewrite app_nil_r. split; [reflexivity|]. intros c [].
  - destruct (Panning.kinetics (panning b)); intros [= <-].
    exists []. rewrite app_nil_r. split; [reflexivity|]. intros c [].
  - destruct (Animating.animation (animating b)) as [a|]; intros [= <-].
    + exists [Stop a]. split; [reflexivity|].
      intros c [<- | []]. exists a. reflexivity.
    + exists []. rewrite app_nil_r. split; [reflexivity|]. intros c [].
Qed.

(** With the invariant, leaving the current state does not throw. *)
Lemma leave_current_returns (b : Behavior K) (cur : StateRef) :
  kinetics_ready b -> current b = Some cur ->
  exists b1, leaveState cur (call (LeaveState cur) b) = Returns b1.
Proof.
  intros Hk Hc. destruct cur; simpl.
  - eexists; reflexivity.
  - unfold Panning_leaveState; simpl.
    destruct (Panning.kinetics (panning b)) eqn:E.
    + eexists; reflexivity.
    + exfalso. apply (Hk Hc). exact E.
  - unfold Animating_leaveState; simpl.
    destruct (Animating.animation (animating b)); eexists; reflexivity.
Qed.

(** [enterState] only adds calls. *)
Lemma becomeIdle_calls (b : Behavior K) :
  exists more, calls (machine (becomeIdle b)) = calls b ++ more.
Proof.
  unfold becomeIdle, goto_with; simpl.
  destruct (current b) as [cur|]; simpl.
  - destruct (leaveState cur (call (LeaveState cur) b)) as [b1|b1] eqn:E; simpl.
    + destruct (leaveState_calls _ _ _ E) as (stops & Hs & _).
      rewrite Hs; simpl. rewrite <- !app_assoc. eexists; reflexivity.
    + destruct cur; simpl in E; unfold BaseState_leaveState,
        Panning_leaveState, Animating_leaveState in E; simpl in E.
      * discriminate.
      * destruct (Panning.kinetics (panning b)); [discriminate|].
        injection E as <-. simpl. eexists; reflexivity.
      * destruct (Animating.animation (animating b)); discriminate.
  - eexists; reflexivity.
Qed.

Lemma enterState_calls (s : StateRef) (params : option Params.t)
    (b : Behavior K) :
  exists more, calls (machine (enterState s params b)) = calls b ++ more.
Proof.
  destruct s; simpl.
  - exists []. rewrite app_nil_r. reflexivity.
  - unfold Panning_enterState. destruct params; simpl;
      exists []; rewrite app_nil_r; reflexivity.
  - unfold Animating_enterState. destruct params as [ps|].
    + destruct (Params.interpolator ps); simpl.
      * eexists; reflexivity.
      * exists []. rewrite app_nil_r. reflexivity.
    + apply becomeIdle_calls.
Qed.

(** [becomeIdle] is [goto('idle')]. *)
Lemma becomeIdle_goto (b : Behavior K) : becomeIdle b = goto "idle" None b.
Proof. reflexivity. Qed.

Lemma becomeIdle_current (b b' : Behavior K) :
  becomeIdle b = Returns b' -> current b' = Some IdleRef.
Proof.
  unfold becomeIdle, goto_with. simpl.
  destruct (match current b with
            | Some cur => leaveState cur (call (LeaveState cur) b)
            | None => Returns b
            end) as [b1|b1]; simpl; [|discriminate].
  intros [= <-]. reflexivity.
Qed.

Lemma goto_panning_current (b b' : Behavior K) :
  goto "panning" None b = Returns b' -> current b' = Some PanningRef.
Proof.
  unfold goto, goto_with. simpl.
  destruct (match current b with
            | Some cur => leaveState cur (call (LeaveState cur) b)
            | None => Returns b
            end) as [b1|b1]; simpl; [|discriminate].
  intros [= <-]. reflexivity.
Qed.

(** The handlers of [Animating] hand the event on to the machine. *)
Lemma Animating_handleZoom_dispatch (x y f : R) (b : Behavior K) :
  Animating_handleZoom x y f b =
  if negb (Animating.forceAnimation (animating b))
  then b1 <- becomeIdle b ;; handleZoom x y f b1
  else Returns b.
Proof.
  unfold Animating_handleZoom.
  destruct (negb (Animating.forceAnimation (animating b))); [|reflexivity].
  destruct (becomeIdle b) as [b1|b1] eqn:E; [|reflexivity]. simpl.
  unfold handleZoom. rewrite (becomeIdle_current _ _ E). reflexivity.
Qed.

Lemma Animating_handleMouseDown_dispatch (x y : R) (b : Behavior K) :
  Animating_handleMouseDown x y b =
  if negb (Animating.forceAnimation (animating b))
  then b1 <- goto "panning" None b ;; handleMouseDown x y b1
  else Returns b.
Proof.
  unfold Animating_handleMouseDown.
  destruct (negb (Animating.forceAnimation (animating b))); [|reflexivity].
  destruct (goto "panning" None b) as [b1|b1] eqn:E; [|reflexivity]. simpl.
  unfold handleMouseDown. rewrite (goto_panning_current _ _ E). reflexivity.
Qed.

(** The invariant holds after construction and is kept by every event,
    also by one that throws. *)
Lemma goto_kinetics_ready (state : string) (params : option Params.t)
    (b : Behavior K) :
  kinetics_ready b -> kinetics_ready (machine (goto state params b)).
Proof.
  intros Hk. unfold goto, goto_with.
  destruct (lookup state) as [s|]; [|exact Hk].
  assert (Hl : exists b1,
            match current b with
            | Some cur => leaveState cur (call (LeaveState cur) b)
            | None => Returns b
            end = Returns b1).
  { destruct (current b) as [cur|] eqn:Hc.
    - apply (leave_current_returns b cur Hk Hc).
    - eexists; reflexivity. }
  destruct Hl as [b1 ->]. simpl.
  destruct s; simpl.
  - intros Hc. discriminate Hc.
  - unfold Panning_enterState. destruct params; simpl; intros _; discriminate.
  - unfold Animating_enterState. destruct params as [ps|].
    + destruct (Params.interpolator ps); intros Hc; discriminate Hc.
    + match goal with
      | |- kinetics_ready (machine (becomeIdle ?m)) =>
          destruct (becomeIdle m) as [b2|b2] eqn:E
      end.
      * intros Hc. simpl in Hc.
        rewrite (becomeIdle_current _ _ E) in Hc. discriminate Hc.
      * exfalso. revert E. unfold becomeIdle, goto_with. simpl.
        unfold Animating_leaveState. simpl.
        destruct (Animating.animation (animating b1)); discriminate.
Qed.

Lemma becomeIdle_kinetics_ready (b : Behavior K) :
  kinetics_ready b -> kinetics_ready (machine (becomeIdle b)).
Proof. rewrite becomeIdle_goto. apply goto_kinetics_ready. Qed.

Lemma handleLimits_keeps (horizontal : bool) (drag : R) (b : Behavior K) :
  current (snd (handleLimits horizontal drag b)) = current b /\
  Panning.kinetics (panning (snd (handleLimits horizontal drag b)))
  = Panning.kinetics (panning b) /\
  diagram (snd (handleLimits horizontal drag b)) = diagram b.
Proof.
  unfold handleLimits.
  destruct (Rleb _ _); [destruct (rubberBanding _)|];
    [destruct horizontal; repeat split | repeat split |].
  destruct (Rgeb _ _); [destruct (rubberBanding _)|];
    destruct horizontal; repeat split.
Qed.

Lemma handle_kinetics_ready (e : Event) (b : Behavior K) :
  kinetics_ready b -> kinetics_ready (machine (handle e b)).
Proof.
  intros Hk.
  destruct e; simpl; try apply goto_kinetics_ready.
  - unfold handleNavigation. destruct (current b) as [[| |]|]; simpl;
      try exact Hk. apply goto_kinetics_ready. exact Hk.
  - unfold handleClick. destruct (current b) as [[| |]|]; simpl;
      try exact Hk. unfold Idle_handleClick.
    destruct double; [apply goto_kinetics_ready; exact Hk|].
    destruct (scope_current (diagram b));
      [apply goto_kinetics_ready|]; exact Hk.
  - unfold handleMouseDown. destruct (current b) as [[| |]|] eqn:Hc; simpl;
      try exact Hk.
    + apply goto_kinetics_ready. exact Hk.
    + unfold Animating_handleMouseDown.
      destruct (negb _); [|exact Hk].
      pose proof (goto_kinetics_ready "panning" None b Hk) as Hg.
      destruct (goto "panning" None b) as [b1|b1] eqn:E; [|exact Hg].
      simpl. rewrite (goto_panning_current _ _ E). simpl.
      intros _. simpl. apply Hg. apply (goto_panning_current _ _ E).
  - unfold handleMouseMove. destruct (current b) as [[| |]|] eqn:Hc; simpl;
      try exact Hk.
    unfold Panning_handleMouseMove.
    assert (Hb2 : forall (lx ly : R) (b2 : Behavior K),
              current b2 = current b ->
              Panning.kinetics (panning b2) = Panning.kinetics (panning b) ->
              kinetics_ready
                (machine
                   (b3 <- (if useKinetics (diagram b2)
                           then
                             match Panning.kinetics (panning b2) with
                             | Some k =>
                                 Returns
                                   (set_panning
                                      (Panning.mk (Panning.limits (panning b2))
                                         (Panning.anchorX (panning b2))
                                         (Panning.anchorY (panning b2))
                                         (Panning.pressedX (panning b2))
                                         (Panning.pressedY (panning b2))
                                         (Some
                                            (kinetics_update
                                               (Panning.pressedX (panning b)
                                                - Panning.anchorX (panning b)
                                                - x)
                                               (Panning.pressedY (panning b)
                                                - Panning.anchorY (panning b)
                                                - y) k))
                                         (Panning.left (panning b2))
                                         (Panning.right (panning b2))
                                         (Panning.bottom (panning b2))
                                         (Panning.top (panning b2))) b2)
                             | None => Throws b2
                             end
                           else Returns b2) ;;
                    Returns (set_camera
                               (Camera.moveTo lx ly (camera (diagram b3)))
                               b3)))).
    { intros lx ly b2 Hc2 Hk2.
      assert (Hr : Panning.kinetics (panning b2) <> None)
        by (rewrite Hk2; apply Hk; exact Hc).
      destruct (useKinetics (diagram b2)).
      - destruct (Panning.kinetics (panning b2)) eqn:E; simpl.
        + intros _. simpl. discriminate.
        + congruence.
      - simpl. intros _. simpl. exact Hr. }
    destruct (respectLimits (diagram b)).
    + destruct (handleLimits true _ b) as [lx b1] eqn:E1.
      destruct (handleLimits false _ b1) as [ly b2] eqn:E2.
      pose proof (handleLimits_keeps true
                    (Panning.pressedX (panning b)
                     - Panning.anchorX (panning b) - x) b) as (H1 & H2 & _).
      rewrite E1 in H1, H2. simpl in H1, H2.
      pose proof (handleLimits_keeps false
                    (Panning.pressedY (panning b)
                     - Panning.anchorY (panning b) - y) b1) as (H3 & H4 & _).
      rewrite E2 in H3, H4. simpl in H3, H4.
      apply Hb2; congruence.
    + apply Hb2; reflexivity.
  - unfold handleMouseUp. destruct (current b) as [[| |]|] eqn:Hc; simpl;
      try exact Hk.
    unfold Panning_handleMouseUp.
    destruct (isBanding b).
    + destruct (animatedNavigation (diagram b));
        [apply goto_kinetics_ready | apply becomeIdle_kinetics_ready];
        exact Hk.
    + destruct (isKinetic b) as [[|]|]; simpl; try exact Hk.
      * destruct (Panning.kinetics (panning b));
          [apply goto_kinetics_ready|]; exact Hk.
      * apply becomeIdle_kinetics_ready. exact Hk.
  - unfold handleZoom. destruct (current b) as [[| |]|] eqn:Hc; simpl;
      try exact Hk.
    unfold Animating_handleZoom. destruct (negb _); [|exact Hk].
      pose proof (becomeIdle_kinetics_ready b Hk) as Hg.
      destruct (becomeIdle b) as [b1|b1] eqn:E; [|exact Hg].
      simpl. rewrite (becomeIdle_current _ _ E). simpl.
      intros Hc'. simpl in Hc'.
      rewrite (becomeIdle_current _ _ E) in Hc'. discriminate Hc'.
  - unfold handleKey. destruct (current b); exact Hk.
  - unfold handleAbort. destruct (current b) as [[| |]|]; simpl;
      try exact Hk. apply becomeIdle_kinetics_ready. exact Hk.
  - unfold handleStop. destruct (current b) as [[| |]|]; simpl;
      try exact Hk. unfold Animating_handleStop.
    destruct (negb _); [apply becomeIdle_kinetics_ready|]; exact Hk.
  - exact Hk.
  - unfold reenter. destruct (current b) as [cur|] eqn:Hc; [|exact Hk].
    destruct (leave_current_returns b cur Hk Hc) as [b1 E]. rewrite E. simpl.
    rewrite (leaveState_current _ _ _ E). simpl. rewrite Hc.
    destruct cur; simpl.
    + intros Hc'. simpl in Hc'.
      rewrite (leaveState_current _ _ _ E) in Hc'. simpl in Hc'. congruence.
    + unfold Panning_enterState. destruct params; simpl; intros _; discriminate.
    + unfold Animating_enterState. destruct params as [ps|].
      * destruct (Params.interpolator ps); simpl; intros Hc'; simpl in Hc';
          rewrite (leaveState_current _ _ _ E) in Hc'; simpl in Hc';
          congruence.
      * apply becomeIdle_kinetics_ready. intros Hc'. simpl in Hc'.
        rewrite (leaveState_current _ _ _ E) in Hc'. simpl in Hc'.
        congruence.
Qed.

Lemma reachable_kinetics_ready (b : Behavior K) :
  reachable b -> kinetics_ready b.
Proof.
  induction 1 as [d | e b _ IH].
  - intros Hc. discriminate Hc.
  - apply handle_kinetics_ready. exact IH.
Qed.

(** C7: [goto(state, params)].  When [state] names a supported state, the
    machine calls [leaveState()] of the current state if there is one, sets
    [last] to the state that was current, makes the named state current and
    then calls its [enterState(params)], in that order; when the state
    entered does not itself leave again, the call returns with the named
    state current and the previous one in [last].  When [state] is not a
    supported name, [goto] returns with the machine unchanged. *)
Theorem goto_steps (state : string) (params : option Params.t)
    (b : Behavior K) :
  kinetics_ready b ->
  match lookup state with
  | Some newState =>
      In state supportedStates /\
      exists (b1 : Behavior K) (stops more : list Call),
        match current b with
        | Some cur => leaveState cur (call (LeaveState cur) b) = Returns b1
        | None => b1 = b
        end /\
        let b3 := set_current (Some newState) (set_last (current b) b1) in
        goto state params b =
          enterState newState params (call (EnterState newState params) b3) /\
        calls (machine (goto state params b)) =
          calls b
          ++ match current b with Some cur => [LeaveState cur] | None => [] end
          ++ stops ++ [EnterState newState params] ++ more /\
        (forall c, In c stops -> exists a, c = Stop a) /\
        (newState <> AnimatingRef \/
         (exists ps a, params = Some ps /\ Params.interpolator ps = Some a) ->
         exists b', goto state params b = Returns b' /\
                    current b' = Some newState /\ last b' = current b)
  | None =>
      ~ In state supportedStates /\ goto state params b = Returns b
  end.
Proof.
  intros Hk. pose proof (lookup_supported state) as Hl.
  unfold goto, goto_with.
  destruct (lookup state) as [newState|]; [|split; [exact Hl | reflexivity]].
  destruct Hl as [Hin _]. split; [exact Hin|].
  assert (Hleave : exists b1 stops,
    match current b with
    | Some cur => leaveState cur (call (LeaveState cur) b) = Returns b1
    | None => b1 = b
    end /\
    current b1 = current b /\ last b1 = last b /\
    calls b1 = calls b
      ++ match current b with Some cur => [LeaveState cur] | None => [] end
      ++ stops /\
    forall c, In c stops -> exists a, c = Stop a).
  { destruct (current b) as [cur|] eqn:Hc.
    - destruct (leave_current_returns b cur Hk Hc) as [b1 E].
      destruct (leaveState_calls _ _ _ E) as (stops & Hs & Hst).
      exists b1, stops. repeat split.
      + exact E.
      + rewrite (leaveState_current _ _ _ E). exact Hc.
      + rewrite (leaveState_last _ _ _ E). reflexivity.
      + rewrite Hs. simpl. rewrite <- app_assoc. reflexivity.
      + exact Hst.
    - exists b, []. rewrite !app_nil_r. repeat split; try assumption.
      intros c []. }
  destruct Hleave as (b1 & stops & E & Hcur & Hlast & Hcalls & Hst).
  assert (Hb : match current b with
               | Some cur => leaveState cur (call (LeaveState cur) b)
               | None => Returns b
               end = Returns b1).
  { destruct (current b); [exact E | rewrite E; reflexivity]. }
  rewrite Hb. simpl bind. rewrite Hcur.
  set (b3 := set_current (Some newState) (set_last (current b) b1)).
  destruct (enterState_calls newState params
              (call (EnterState newState params) b3)) as [more Hmore].
  exists b1, stops, more. repeat split.
  - exact E.
  - rewrite Hmore. simpl calls. rewrite Hcalls.
    rewrite <- !app_assoc. reflexivity.
  - exact Hst.
  - intros Hend. destruct newState.
    + eexists. split; [reflexivity|]. split; reflexivity.
    + unfold enterState, Panning_enterState. destruct params;
        eexists; (split; [reflexivity|]); split; reflexivity.
    + destruct Hend as [Hne | (ps & a & -> & Hi)]; [congruence|].
      unfold enterState, Animating_enterState. rewrite Hi.
      eexists. split; [reflexivity|]. split; reflexivity.
Qed.

(** C6: an animation entered with [forced = true] keeps the machine as it
    is on a pointer-down, a wheel event and a stop request; an abort request
    takes any animating machine to the idle state. *)
Theorem forced_animation_ignores_input (b0 b : Behavior K) (ps : Params.t) :
  Params.forced ps = Some true ->
  goto "animating" (Some ps) b0 = Returns b ->
  currentState b = Value "animating" /\
  Animating.forceAnimation (animating b) = true /\
  (forall x y, handleMouseDown x y b = Returns b) /\
  (forall x y f, handleZoom x y f b = Returns b) /\
  handleStop b = Returns b /\
  (exists b', handleAbort b = Returns b' /\ currentState b' = Value "idle") /\
  (forall m : Behavior K, current m = Some AnimatingRef ->
     exists m', handleAbort m = Returns m' /\
                currentState m' = Value "idle").
Proof.
  intros Hf Hg.
  assert (Habort : forall m : Behavior K, current m = Some AnimatingRef ->
     exists m', handleAbort m = Returns m' /\
                currentState m' = Value "idle").
  { intros m Hm. unfold handleAbort, Animating_handleAbort, becomeIdle,
      goto_with. rewrite Hm. simpl.
    unfold Animating_leaveState. simpl.
    destruct (Animating.animation (animating m));
      eexists; (split; [reflexivity|]); reflexivity. }
  assert (Hb : current b = Some AnimatingRef /\
               Animating.forceAnimation (animating b) = true).
  { unfold goto, goto_with in Hg. simpl in Hg.
    destruct (match current b0 with
              | Some cur => leaveState cur (call (LeaveState cur) b0)
              | None => Returns b0
              end) as [b1|b1]; simpl in Hg; [|discriminate].
    unfold Animating_enterState in Hg. rewrite Hf in Hg.
    destruct (Params.interpolator ps); [|discriminate].
    injection Hg as <-. split; reflexivity. }
  destruct Hb as [Hc Hforce].
  split. { unfold currentState. rewrite Hc. reflexivity. }
  split. { exact Hforce. }
  split. { intros x y. unfold handleMouseDown, Animating_handleMouseDown.
           rewrite Hc, Hforce. reflexivity. }
  split. { intros x y f. unfold handleZoom, Animating_handleZoom.
           rewrite Hc, Hforce. reflexivity. }
  split. { unfold handleStop, Animating_handleStop.
           rewrite Hc, Hforce. reflexivity. }
  split. { apply Habort. exact Hc. }
  exact Habort.
Qed.

(** The own property stays: no later transition makes [lastState()]
    callable again. *)
Lemma goto_lastState_own (state : string) (params : option Params.t)
    (b : Behavior K) :
  lastState_own (machine (goto state params b)) = lastState_own b.
Proof.
  assert (Hleave : forall s (m : Behavior K),
            lastState_own (machine (leaveState s m)) = lastState_own m).
  { intros s m. destruct s; simpl; unfold Panning_leaveState,
      Animating_leaveState; [reflexivity| |].
    - destruct (Panning.kinetics (panning m)); reflexivity.
    - destruct (Animating.animation (animating m)); reflexivity. }
  assert (Hidle : forall m : Behavior K,
            lastState_own (machine (becomeIdle m)) = lastState_own m).
  { intros m. unfold becomeIdle, goto_with. simpl.
    destruct (current m) as [cur|]; [|reflexivity].
    specialize (Hleave cur (call (LeaveState cur) m)).
    destruct (leaveState cur (call (LeaveState cur) m)); exact Hleave. }
  unfold goto, goto_with. destruct (lookup state) as [s|]; [|reflexivity].
  assert (Hb : forall o : Outcome (Behavior K),
            lastState_own (machine o) = lastState_own b ->
            lastState_own (machine
              (b1 <- o ;;
               enterState s params
                 (call (EnterState s params)
                    (set_current (Some s) (set_last (current b1) b1)))))
            = lastState_own b).
  { intros [b1|b1] Ho; simpl in *; [|exact Ho].
    destruct s; simpl.
    - exact Ho.
    - unfold Panning_enterState. destruct params; exact Ho.
    - unfold Animating_enterState. destruct params as [ps|].
      + destruct (Params.interpolator ps); exact Ho.
      + rewrite Hidle. exact Ho. }
  apply Hb. destruct (current b) as [cur|]; [|reflexivity].
  apply (Hleave cur (call (LeaveState cur) b)).
Qed.

(** C10: right after construction [currentState()] is ['idle'], the
    reference [last] is still undefined and the property [lastState] holds
    the idle state object, so that the call [lastState()] gives no state
    name: it throws.  A transition to a supported state defines [last], so
    that the method of the class would have a name to return; the property
    still hides it. *)
Theorem construct_lastState_unusable (d : Diagram) :
  exists b : Behavior K,
    construct d = Returns b /\
    currentState b = Value "idle" /\
    last b = None /\
    lastState_own b = Some IdleRef /\
    lastState_method b = TypeError /\
    lastState b = TypeError /\
    calls b = [EnterState IdleRef None] /\
    (forall state params b',
       In state supportedStates ->
       goto state params b = Returns b' ->
       (exists n, lastState_method b' = Value n) /\
       lastState b' = TypeError).
Proof.
  set (b := set_lastState_own (K := K) (Some IdleRef)
              (call (EnterState IdleRef None)
                 (set_current (Some IdleRef) (set_last None (fresh d))))).
  exists b. split; [reflexivity|].
  do 6 (split; [reflexivity|]).
  intros state params b' Hin Hg. split.
  - pose proof (lookup_supported state) as Hl.
    revert Hg. unfold goto, goto_with.
    destruct (lookup state) as [s|]; [|contradiction].
    change (current b) with (Some IdleRef).
    cbn [leaveState BaseState_leaveState bind].
    destruct s; cbn [enterState].
    + intros [= <-]. eexists; reflexivity.
    + unfold Panning_enterState, Panning_handleMouseDown.
      destruct params; intros [= <-]; eexists; reflexivity.
    + unfold Animating_enterState. destruct params as [ps|].
      * destruct (Params.interpolator ps); [|discriminate].
        intros [= <-]. eexists; reflexivity.
      * unfold becomeIdle, goto_with. change (lookup "idle") with (Some IdleRef).
        cbn [current set_current set_last call leaveState bind].
        unfold Animating_leaveState.
        cbn [animating set_current set_last call fresh set_lastState_own b
             Animating.animation BaseState_enterState].
        intros [= <-]. eexists; reflexivity.
  - pose proof (goto_lastState_own state params b) as Ho.
    rewrite Hg in Ho. unfold lastState.
    change (lastState_own (machine (Returns b'))) with (lastState_own b') in Ho.
    rewrite Ho. reflexivity.
Qed.

End MachineFacts.

(** * [Idle.handleZoom] *)

Lemma Rpower_1002_nat (n : nat) :
  Rpower 1.002 (INR n) = IZR (1002 ^ Z.of_nat n) / IZR (1000 ^ Z.of_nat n).
Proof.
  rewrite Rpower_pow by lra.
  replace 1.002 with (IZR 1002 / IZR 1000) by lra.
  unfold Rdiv. rewrite Rpow_mult_distr, pow_inv, <- !pow_IZR. reflexivity.
Qed.

(** [a / 1000 < 1.002 ^ n] and [1.002 ^ n < a / 1000] as comparisons of
    integers. *)
Lemma Rpower_1002_lower (n : nat) (a : Z) :
  (a * 1000 ^ Z.of_nat n < 1000 * 1002 ^ Z.of_nat n)%Z ->
  IZR a / 1000 < Rpower 1.002 (INR n).
Proof.
  intros H. rewrite Rpower_1002_nat.
  assert (Hd : 0 < IZR (1000 ^ Z.of_nat n)).
  { apply IZR_lt. apply Z.pow_pos_nonneg; lia. }
  apply IZR_lt in H. rewrite !mult_IZR in H.
  apply Rmult_lt_reg_r with (IZR (1000 ^ Z.of_nat n)); [exact Hd|].
  unfold Rdiv at 2. rewrite Rmult_assoc, Rinv_l, Rmult_1_r by lra.
  lra.
Qed.

Lemma Rpower_1002_upper (n : nat) (a : Z) :
  (1000 * 1002 ^ Z.of_nat n < a * 1000 ^ Z.of_nat n)%Z ->
  Rpower 1.002 (INR n) < IZR a / 1000.
Proof.
  intros H. rewrite Rpower_1002_nat.
  assert (Hd : 0 < IZR (1000 ^ Z.of_nat n)).
  { apply IZR_lt. apply Z.pow_pos_nonneg; lia. }
  apply IZR_lt in H. rewrite !mult_IZR in H.
  apply Rmult_lt_reg_r with (IZR (1000 ^ Z.of_nat n)); [exact Hd|].
  unfold Rdiv at 1. rewrite Rmult_assoc, Rinv_l, Rmult_1_r by lra.
  lra.
Qed.

Lemma Rpower_1002_500 : 2.715 < Rpower 1.002 500 < 2.716.
Proof.
  replace 500 with (INR 500) by (rewrite INR_IZR_INZ; reflexivity).
  split.
  - replace 2.715 with (IZR 2715 / 1000) by lra.
    apply Rpower_1002_lower. vm_compute. reflexivity.
  - replace 2.716 with (IZR 2716 / 1000) by lra.
    apply Rpower_1002_upper. vm_compute. reflexivity.
Qed.

Section ZoomFacts.

Context {K : Type} {kops : KineticsOps K}.

Lemma castRay_zoomToAbout (cam : Camera.t) (s x y : R) :
  Camera.scale cam <> 0 -> s <> 0 ->
  let cam' := Camera.zoomToAbout s (Camera.castRayX x cam)
                                 (Camera.castRayY y cam) cam in
  Camera.castRayX x cam' = Camera.castRayX x cam /\
  Camera.castRayY y cam' = Camera.castRayY y cam.
Proof.
  intros H0 Hs. simpl.
  unfold Camera.castRayX, Camera.castRayY, Camera.worldX, Camera.worldY,
    Camera.zoomToAbout, Camera.screenX, Camera.screenY; simpl.
  split; field; auto.
Qed.

(** C2, amended: what [Idle.handleZoom] makes of the scale.  With
    [target = scale * 1.002^units]: with limits respected the new scale is
    the maximum zoom when [target] reaches it, and otherwise the larger of
    [target] and the minimum zoom; with limits not respected it is [target]
    itself, unclamped.  The world point under the pointer stays under it.
    From scale [1] in a viewport of [800 x 600], [units = 500] gives
    [1.002^500], between [2.715] and [2.716], whether limits are respected
    or not. *)
Theorem Idle_handleZoom_scale (x y units : R) (b : Behavior K) :
  let cam := camera (diagram b) in
  let target := Rpower 1.002 units * Camera.scale cam in
  let maxZoom := Idle.maxZoom (idle b) in
  let limits := Idle.limits (idle b) in
  let w := Camera.visualWidth cam in
  let h := Camera.visualHeight cam in
  let minZoom := if Rgtb w h
                 then w / (Limits.right limits - Limits.left limits)
                 else h / (Limits.bottom limits - Limits.top limits) in
  exists b',
    Idle_handleZoom x y units b = Returns b' /\
    let cam' := camera (diagram b') in
    (respectLimits (diagram b) = false -> Camera.scale cam' = target) /\
    (respectLimits (diagram b) = true -> maxZoom <= target ->
     Camera.scale cam' = maxZoom) /\
    (respectLimits (diagram b) = true -> target < maxZoom ->
     Camera.scale cam' = Rmax target minZoom) /\
    (Camera.scale cam <> 0 -> Camera.scale cam' <> 0 ->
     Camera.castRayX x cam' = Camera.castRayX x cam /\
     Camera.castRayY y cam' = Camera.castRayY y cam) /\
    (forall respect : bool,
       let d := mkDiagram (Camera.mk 0 0 1 800 600) respect true true true
                          0.5 1 None in
       exists b1 b2 : Behavior K,
         construct d = Returns b1 /\
         handleZoom 400 300 500 b1 = Returns b2 /\
         Camera.scale (camera (diagram b2)) = Rpower 1.002 500 /\
         2.715 < Camera.scale (camera (diagram b2)) < 2.716 /\
         Camera.castRayX 400 (camera (diagram b2)) = 400 /\
         Camera.castRayY 300 (camera (diagram b2)) = 300).
Proof.
  intros cam target maxZoom limits w h minZoom.
  eexists. split; [reflexivity|]. simpl.
  assert (Hoff : respectLimits (diagram b) = false ->
                 zoomTarget units b = target).
  { intros Hr. unfold zoomTarget. rewrite Hr. reflexivity. }
  assert (Hmax : respectLimits (diagram b) = true -> maxZoom <= target ->
                 zoomTarget units b = maxZoom).
  { intros Hr Hge. unfold zoomTarget. rewrite Hr. fold cam.
    unfold Math_pow, Rgeb. fold target maxZoom.
    rewrite Rleb_true by exact Hge. reflexivity. }
  assert (Hmin : respectLimits (diagram b) = true -> target < maxZoom ->
                 zoomTarget units b = Rmax target minZoom).
  { intros Hr Hlt. unfold zoomTarget. rewrite Hr. fold cam.
    unfold Math_pow, Rgeb. fold target maxZoom.
    rewrite Rleb_false by exact Hlt.
    fold limits w h. fold minZoom.
    unfold Rleb, Rmax. destruct (Rle_dec target minZoom); reflexivity. }
  split; [exact Hoff|]. split; [exact Hmax|]. split; [exact Hmin|].
  split.
  { intros H0 Hs. apply castRay_zoomToAbout; assumption. }
  intros respect.
  pose proof Rpower_1002_500 as [Hlo Hhi].
  eexists. eexists. split; [reflexivity|]. split; [reflexivity|].
  simpl.
  assert (Ht : zoomTarget (K:=K) 500
                 (set_lastState_own (lookup "idle")
                    (call (EnterState IdleRef None)
                       (set_current (Some IdleRef)
                          (set_last None
                             (fresh
                                (mkDiagram (Camera.mk 0 0 1 800 600) respect
                                   true true true 0.5 1 None))))))
               = Rpower 1.002 500).
  { unfold zoomTarget; simpl. unfold Math_pow, Rgeb.
    destruct respect.
    - rewrite Rleb_false by lra.
      rewrite Rgtb_true by lra.
      rewrite Rleb_false by lra. ring.
    - ring. }
  simpl in Ht. rewrite Ht.
  split; [reflexivity|]. split; [split; assumption|].
  unfold Camera.castRayX, Camera.castRayY, Camera.worldX, Camera.worldY;
    simpl.
  unfold Camera.screenX, Camera.screenY; simpl.
  split; field; lra.
Qed.

End ZoomFacts.

(** C2 as stated fails: with limits not respected no maximum applies.  From
    scale [8], a wheel event of [500] units leaves the scale above the
    maximum zoom [10], where the clamp of the spec gives [10]. *)
Lemma zoom_unclamped_without_limits :
  let d := mkDiagram (Camera.mk 0 0 8 800 600) false true true true 0.5 1
                     None in
  exists b b' : Behavior bool,
    construct d = Returns b /\
    handleZoom 400 300 500 b = Returns b' /\
    Idle.maxZoom (idle b) < Camera.scale (camera (diagram b')) /\
    spec_zoomTarget 500 b = 10 /\
    Camera.scale (camera (diagram b')) <> spec_zoomTarget 500 b.
Proof.
  pose proof Rpower_1002_500 as [Hp _].
  eexists. eexists. split; [reflexivity|]. split; [reflexivity|].
  assert (Hs : spec_zoomTarget (K:=bool) 500
                 (set_lastState_own (lookup "idle")
                    (call (EnterState IdleRef None)
                       (set_current (Some IdleRef)
                          (set_last None
                             (fresh
                                (mkDiagram (Camera.mk 0 0 8 800 600) false
                                   true true true 0.5 1 None)))))) = 10).
  { unfold spec_zoomTarget; simpl. unfold Math_pow, Rmin.
    destruct (Rle_dec (Rpower 1.002 500 * 8) 10); [lra | reflexivity]. }
  simpl. unfold zoomTarget; simpl. unfold Math_pow.
  split; [lra|]. split; [exact Hs|].
  simpl in Hs. rewrite Hs. lra.
Qed.

(** * [Panning.handleLimits] *)

Lemma log10_1 : log10 1 = 0.
Proof. unfold log10. rewrite ln_1. lra. Qed.

Lemma ln_10_gt_1 : 1 < ln 10.
Proof.
  rewrite <- (ln_exp 1). apply ln_increasing.
  - apply exp_pos.
  - pose proof exp_le_3. lra.
Qed.

Lemma log10_10 : log10 10 = 1.
Proof. unfold log10. pose proof ln_10_gt_1. field. lra. Qed.

Lemma log10_pow10 (n : nat) : log10 (10 ^ n) = INR n.
Proof.
  unfold log10. rewrite ln_pow by lra.
  pose proof ln_10_gt_1. field. lra.
Qed.


(** For [r >= 1]: [0 <= log10 r <= r - 1]. *)
Lemma log10_bounds (r : R) : 1 <= r -> 0 <= log10 r <= r - 1.
Proof.
  intros Hr. pose proof ln_10_gt_1 as H10.
  assert (H0 : 0 <= ln r).
  { destruct (Req_dec r 1) as [-> | Hne].
    - rewrite ln_1. lra.
    - rewrite <- ln_1. left. apply ln_increasing; lra. }
  assert (H1 : ln r <= r - 1).
  { destruct (Req_dec (ln r) 0) as [E | Hne].
    - rewrite E. lra.
    - pose proof (exp_ineq1 (ln r) Hne) as He.
      rewrite exp_ln in He by lra. lra. }
  unfold log10. split.
  - apply Rmult_le_pos; [exact H0|]. left. apply Rinv_0_lt_compat. lra.
  - apply Rle_trans with (ln r); [|exact H1].
    apply Rmult_le_reg_r with (ln 10); [lra|].
    unfold Rdiv. rewrite Rmult_assoc, Rinv_l by lra. nra.
Qed.

Section LimitFacts.

Context {K : Type} {kops : KineticsOps K}.

Lemma handleLimits_lower_band (horizontal : bool) (drag : R)
    (b : Behavior K) :
  rubberBanding (diagram b) = true ->
  axis_min horizontal (camera (diagram b))
    <= axis_lower horizontal (Panning.limits (panning b)) ->
  handleLimits horizontal drag b =
  (damp (drag / Camera.scale (camera (diagram b)))
        (axis_lower horizontal (Panning.limits (panning b)))
   * axis_lower horizontal (Panning.limits (panning b))
   * Camera.scale (camera (diagram b)),
   set_panning (updateBanding horizontal true true (panning b)) b).
Proof.
  intros Hb Hm. unfold handleLimits.
  fold (axis_min horizontal (camera (diagram b))).
  fold (axis_lower horizontal (Panning.limits (panning b))).
  rewrite (Rleb_true _ _ Hm), Hb. reflexivity.
Qed.


Lemma handleLimits_upper_band (horizontal : bool) (drag : R)
    (b : Behavior K) :
  rubberBanding (diagram b) = true ->
  axis_lower horizontal (Panning.limits (panning b))
    < axis_min horizontal (camera (diagram b)) ->
  axis_higher horizontal (Panning.limits (panning b))
    <= axis_min horizontal (camera (diagram b))
       + axis_extent horizontal (camera (diagram b)) ->
  handleLimits horizontal drag b =
  ((damp (drag / Camera.scale (camera (diagram b))
          + axis_extent horizontal (camera (diagram b)))
         (axis_higher horizontal (Panning.limits (panning b)))
    * axis_higher horizontal (Panning.limits (panning b))
    - axis_extent horizontal (camera (diagram b)))
   * Camera.scale (camera (diagram b)),
   set_panning
     (updateBanding horizontal false true
        (updateBanding horizontal true false (panning b))) b).
Proof.
  intros Hb Hlo Hhi. unfold handleLimits.
  fold (axis_min horizontal (camera (diagram b))).
  fold (axis_lower horizontal (Panning.limits (panning b))).
  fold (axis_extent horizontal (camera (diagram b))).
  rewrite (Rleb_false _ _ Hlo), Hb.
  unfold Rgeb.
  fold (axis_higher horizontal (Panning.limits (panning b))).
  rewrite (Rleb_true _ _ Hhi). simpl. reflexivity.
Qed.


Lemma handleLimits_inside (horizontal : bool) (drag : R) (b : Behavior K) :
  axis_lower horizontal (Panning.limits (panning b))
    < axis_min horizontal (camera (diagram b)) ->
  axis_min horizontal (camera (diagram b))
    + axis_extent horizontal (camera (diagram b))
    < axis_higher horizontal (Panning.limits (panning b)) ->
  handleLimits horizontal drag b =
  (drag,
   set_panning
     (updateBanding horizontal false false
        (updateBanding horizontal true false (panning b))) b).
Proof.
  intros Hlo Hhi. unfold handleLimits.
  fold (axis_min horizontal (camera (diagram b))).
  fold (axis_lower horizontal (Panning.limits (panning b))).
  fold (axis_extent horizontal (camera (diagram b))).
  rewrite (Rleb_false _ _ Hlo).
  unfold Rgeb.
  fold (axis_higher horizontal (Panning.limits (panning b))).
  rewrite (Rleb_false _ _ Hhi). simpl. reflexivity.
Qed.



End LimitFacts.

(** * Rubber-banding *)

Lemma damp_nonzero (actual limit : R) :
  actual <> 0 -> limit <> 0 ->
  damp actual limit = 1 + log10 (Rabs actual / Rabs limit).
Proof.
  intros Ha Hl. unfold damp.
  assert (Hr : Rabs (actual / limit) = Rabs actual / Rabs limit).
  { unfold Rdiv. rewrite Rabs_mult, Rabs_inv. reflexivity. }
  rewrite Hr. rewrite num_or_nonzero; [reflexivity|].
  pose proof (Rabs_pos_lt actual Ha). pose proof (Rabs_pos_lt limit Hl).
  apply Rgt_not_eq. apply Rdiv_lt_0_compat; assumption.
Qed.


Section BandingFacts.

Context {K : Type} {kops : KineticsOps K}.


Lemma banding_abs_offset (horizontal : bool) (b : Behavior K) :
  rubberBanding (diagram b) = true ->
  let scale := Camera.scale (camera (diagram b)) in
  let lower := axis_lower horizontal (Panning.limits (panning b)) in
  axis_min horizontal (camera (diagram b)) <= lower ->
  lower <> 0 -> 0 < scale ->
  forall d : R,
    d / scale <> 0 -> 1 <= Rabs (d / scale) / Rabs lower ->
    Rabs (fst (handleLimits horizontal d b))
    = (1 + log10 (Rabs (d / scale) / Rabs lower)) * Rabs lower * scale.
Proof.
  intros Hb scale lower Hm Hl Hs d Hd0 Hr.
  rewrite (handleLimits_lower_band horizontal d b Hb Hm). simpl fst.
  fold scale lower. rewrite damp_nonzero by assumption.
  pose proof (log10_bounds _ Hr) as [Hlog _].
  rewrite !Rabs_mult.
  rewrite (Rabs_pos_eq (1 + _)) by lra.
  rewrite (Rabs_pos_eq scale) by lra. reflexivity.
Qed.

(** Whatever the constant [k], some drag past the lower bound gives an
    offset of magnitude beyond [|lower| * k]. *)
Lemma banding_unbounded (horizontal : bool) (b : Behavior K) :
  rubberBanding (diagram b) = true ->
  let scale := Camera.scale (camera (diagram b)) in
  let lower := axis_lower horizontal (Panning.limits (panning b)) in
  axis_min horizontal (camera (diagram b)) <= lower ->
  lower <> 0 -> 0 < scale ->
  forall k : R, exists drag : R,
    Rabs lower * k < Rabs (fst (handleLimits horizontal drag b)).
Proof.
  intros Hb scale lower Hm Hl Hs k.
  assert (Hlpos : 0 < Rabs lower) by (apply Rabs_pos_lt; exact Hl).
  destruct (INR_unbounded (k / scale)) as [n Hn].
  assert (Hk : k < INR n * scale).
  { apply Rmult_lt_reg_r with (/ scale);
      [apply Rinv_0_lt_compat; lra|].
    rewrite Rmult_assoc, Rinv_r by lra. unfold Rdiv in Hn. lra. }
  exists (lower * scale * 10 ^ n).
  assert (Hp : 0 < 10 ^ n) by (apply pow_lt; lra).
  assert (Hq : lower * scale * 10 ^ n / scale = lower * 10 ^ n)
    by (field; lra).
  assert (Hq0 : lower * scale * 10 ^ n / scale <> 0).
  { rewrite Hq. apply Rmult_integral_contrapositive_currified; lra. }
  assert (Hratio : Rabs (lower * scale * 10 ^ n / scale) / Rabs lower
                   = 10 ^ n).
  { rewrite Hq, Rabs_mult, (Rabs_pos_eq (10 ^ n)) by lra. field. lra. }
  assert (H1 : 1 <= 10 ^ n) by (apply pow_R1_Rle; lra).
  rewrite (banding_abs_offset horizontal b Hb Hm Hl Hs);
    fold scale; fold lower; [|exact Hq0|rewrite Hratio; exact H1].
  rewrite Hratio, log10_pow10.
  apply Rlt_le_trans with (Rabs lower * (INR n * scale)).
  - apply Rmult_lt_compat_l; assumption.
  - nra.
Qed.

(** C4, amended: past the lower bound the damping is logarithmic.  For a
    drag with [|drag/scale| >= |lower|] the offset has the magnitude
    [(1 + log10(|drag/scale| / |lower|)) * |lower| * scale], between
    [|lower| * scale] and [|drag|]; and whatever the constant [k], some drag
    gives an offset of magnitude beyond [|lower| * k]. *)
Theorem banding_logarithmic (horizontal : bool) (drag : R) (b : Behavior K) :
  rubberBanding (diagram b) = true ->
  let cam := camera (diagram b) in
  let scale := Camera.scale cam in
  let lower := axis_lower horizontal (Panning.limits (panning b)) in
  axis_min horizontal cam <= lower ->
  lower <> 0 -> 0 < scale ->
  Rabs lower <= Rabs (drag / scale) ->
  let offset := fst (handleLimits horizontal drag b) in
  Rabs offset
    = (1 + log10 (Rabs (drag / scale) / Rabs lower)) * Rabs lower * scale /\
  Rabs lower * scale <= Rabs offset <= Rabs drag /\
  (forall k : R, exists drag' : R,
     Rabs lower * k < Rabs (fst (handleLimits horizontal drag' b))).
Proof.
  intros Hb cam scale lower Hm Hl Hs Hd offset.
  assert (Hlpos : 0 < Rabs lower) by (apply Rabs_pos_lt; exact Hl).
  assert (Hd0 : drag / scale <> 0).
  { intros E. rewrite E, Rabs_R0 in Hd. lra. }
  assert (Hr : 1 <= Rabs (drag / scale) / Rabs lower).
  { apply Rmult_le_reg_r with (Rabs lower); [exact Hlpos|].
    unfold Rdiv at 1. rewrite Rmult_assoc, Rinv_l by lra. lra. }
  pose proof (log10_bounds _ Hr) as [Hlog0 Hlog1].
  assert (Hdrag : Rabs drag = Rabs (drag / scale) * scale).
  { unfold Rdiv. rewrite Rabs_mult, Rabs_inv, (Rabs_pos_eq scale) by lra.
    field. lra. }
  pose proof (banding_abs_offset horizontal b Hb Hm Hl Hs drag Hd0 Hr)
    as Habs.
  fold cam scale lower offset in Habs.
  split; [exact Habs|]. split.
  - rewrite Habs. split.
    + apply Rmult_le_compat_r; [lra|].
      rewrite <- (Rmult_1_l (Rabs lower)) at 1.
      apply Rmult_le_compat_r; lra.
    + rewrite Hdrag. apply Rmult_le_compat_r; [lra|].
      apply Rle_trans
        with (Rabs (drag / scale) / Rabs lower * Rabs lower).
      * apply Rmult_le_compat_r; lra.
      * right. field. lra.
  - apply (banding_unbounded horizontal b Hb Hm Hl Hs).
Qed.


End BandingFacts.

(** * Releasing a pan *)

Section ReleaseFacts.

Context {K : Type} {kops : KineticsOps K}.

Lemma becomeIdle_from_panning (b : Behavior K) (k : K) :
  current b = Some PanningRef ->
  Panning.kinetics (panning b) = Some k ->
  exists b', becomeIdle b = Returns b' /\
             current b' = Some IdleRef /\ last b' = Some PanningRef /\
             animating b' = animating b /\
             calls b' = calls b ++ [LeaveState PanningRef;
                                    EnterState IdleRef None].
Proof.
  intros Hc Hk. unfold becomeIdle, goto_with. simpl. rewrite Hc. simpl.
  unfold Panning_leaveState. simpl. rewrite Hk. simpl.
  eexists. split; [reflexivity|]. simpl. rewrite <- app_assoc.
  repeat split; assumption.
Qed.

Lemma animate_from_panning (b : Behavior K) (k : K) (forced : option bool)
    (a : Animation) :
  current b = Some PanningRef ->
  Panning.kinetics (panning b) = Some k ->
  exists b', goto "animating" (Some (Params.mk None None forced (Some a))) b
             = Returns b' /\
             current b' = Some AnimatingRef /\ last b' = Some PanningRef /\
             Animating.animation (animating b') = Some a /\
             Animating.forceAnimation (animating b')
             = match forced with Some f => f | None => false end /\
             calls b' = calls b ++ [LeaveState PanningRef;
                 EnterState AnimatingRef
                   (Some (Params.mk None None forced (Some a)));
                 Play a].
Proof.
  intros Hc Hk. unfold goto, goto_with. simpl. rewrite Hc. simpl.
  unfold Panning_leaveState. simpl. rewrite Hk. simpl.
  eexists. split; [reflexivity|]. simpl. rewrite <- !app_assoc.
  repeat split; assumption.
Qed.

(** C5, amended: the release of a pan.  With rubber-banding enabled and an
    edge marked violated, the machine goes to [Animating] with the
    [centerOnWorld] correction of [300] ms when animated navigation is
    enabled, and to [Idle] when it is not; otherwise, with kinetics enabled
    and enough momentum, it goes to [Animating] with [throwCamera] at the
    speed and angle of the kinetics for [333] ms; otherwise it goes to
    [Idle]. *)
Theorem Panning_handleMouseUp_release (x y : R) (b : Behavior K) (k : K) :
  current b = Some PanningRef ->
  Panning.kinetics (panning b) = Some k ->
  let v := panning b in
  let edge := Panning.left v || Panning.right v
              || Panning.bottom v || Panning.top v in
  let banding := rubberBanding (diagram b) && edge in
  let momentum := useKinetics (diagram b) && kinetics_hasEnoughMomentum k in
  exists b',
    handleMouseUp x y b = Returns b' /\
    (banding = true -> animatedNavigation (diagram b) = true ->
     currentState b' = Value "animating" /\
     Animating.animation (animating b') = Some (bandingCorrection b) /\
     (exists cx cy, bandingCorrection b = centerOnWorld cx cy 300) /\
     Animating.forceAnimation (animating b') = false /\
     In (Play (bandingCorrection b)) (calls b')) /\
    (banding = true -> animatedNavigation (diagram b) = false ->
     currentState b' = Value "idle" /\ calls b' =
       calls b ++ [LeaveState PanningRef; EnterState IdleRef None]) /\
    (banding = false -> momentum = true ->
     currentState b' = Value "animating" /\
     Animating.animation (animating b')
     = Some (throwCamera (kinetics_speed k) (kinetics_angle k) 333) /\
     Animating.forceAnimation (animating b') = false /\
     In (Play (throwCamera (kinetics_speed k) (kinetics_angle k) 333))
        (calls b')) /\
    (banding = false -> momentum = false ->
     currentState b' = Value "idle" /\ calls b' =
       calls b ++ [LeaveState PanningRef; EnterState IdleRef None]).
Proof.
  intros Hc Hk v edge banding momentum.
  unfold handleMouseUp. rewrite Hc.
  unfold Panning_handleMouseUp, isBanding, isKinetic. rewrite Hk.
  fold v. fold edge. fold banding.
  destruct banding.
  - destruct (animatedNavigation (diagram b)).
    + destruct (animate_from_panning b k (Some false) (bandingCorrection b)
                  Hc Hk) as (b' & E & Hcur & _ & Han & Hf & Hcalls).
      exists b'. split; [exact E|].
      split; [|repeat split; intros; discriminate].
      intros _ _. unfold currentState. rewrite Hcur.
      split; [reflexivity|]. split; [exact Han|].
      split; [eexists; eexists; reflexivity|]. split; [exact Hf|].
      rewrite Hcalls. apply in_or_app. right. simpl. auto.
    + destruct (becomeIdle_from_panning b k Hc Hk)
        as (b' & E & Hcur & _ & _ & Hcalls).
      exists b'. split; [exact E|].
      split; [intros; discriminate|].
      split; [|repeat split; intros; discriminate].
      intros _ _. unfold currentState. rewrite Hcur. split; [reflexivity|].
      exact Hcalls.
  - subst momentum.
    destruct (useKinetics (diagram b)); simpl;
      [destruct (kinetics_hasEnoughMomentum k)|].
    + destruct (animate_from_panning b k (Some false)
                  (throwCamera (kinetics_speed k) (kinetics_angle k) 333)
                  Hc Hk) as (b' & E & Hcur & _ & Han & Hf & Hcalls).
      exists b'. split; [exact E|].
      split; [intros; discriminate|]. split; [intros; discriminate|].
      split; [|intros; discriminate].
      intros _ _. unfold currentState. rewrite Hcur.
      split; [reflexivity|]. split; [exact Han|]. split; [exact Hf|].
      rewrite Hcalls. apply in_or_app. right. simpl. auto.
    + destruct (becomeIdle_from_panning b k Hc Hk)
        as (b' & E & Hcur & _ & _ & Hcalls).
      exists b'. split; [exact E|].
      split; [intros; discriminate|]. split; [intros; discriminate|].
      split; [intros; discriminate|].
      intros _ _. unfold currentState. rewrite Hcur. split; [reflexivity|].
      exact Hcalls.
    + destruct (becomeIdle_from_panning b k Hc Hk)
        as (b' & E & Hcur & _ & _ & Hcalls).
      exists b'. split; [exact E|].
      split; [intros; discriminate|]. split; [intros; discriminate|].
      split; [intros; discriminate|].
      intros _ _. unfold currentState. rewrite Hcur. split; [reflexivity|].
      exact Hcalls.
Qed.

End ReleaseFacts.

(** * [ShapeRenderer.attach] *)




(** * Runs of the machine *)

Lemma damp_same (limit : R) : limit <> 0 -> damp limit limit = 1.
Proof.
  intros H. rewrite damp_nonzero by assumption.
  replace (Rabs limit / Rabs limit) with 1.
  - rewrite log10_1. ring.
  - field. apply Rabs_no_R0. exact H.
Qed.


(** C4 as stated fails: with the camera at the left bound, no constant
    bounds the banded offset by a multiple of the limit. *)
Lemma banding_not_bounded :
  let d := mkDiagram (Camera.mk (-800) 0 1 800 600) true true true true 0.5 1
                     None in
  exists b1 b2 : Behavior bool,
    construct d = Returns b1 /\
    handleMouseDown 400 300 b1 = Returns b2 /\
    ~ exists k : R, forall drag : R,
        Rabs (fst (handleLimits true drag b2))
        <= Rabs (Limits.left (Panning.limits (panning b2))) * k.
Proof.
  intros d. eexists. eexists.
  split; [reflexivity|]. split; [reflexivity|].
  intros [k Hk].
  match type of Hk with
  | forall drag, Rabs (fst (handleLimits true drag ?b)) <= _ =>
      destruct (banding_unbounded true b) with (k := k) as [drag Hd];
        [reflexivity | bounds | simpl; lra | simpl; lra |];
        specialize (Hk drag); simpl in Hk, Hd; lra
  end.
Qed.


(** C5 as stated fails: with animated navigation switched off, a release
    with the left edge marked violated goes straight to [Idle], with no
    animation played. *)
Lemma release_with_violated_edge_goes_idle :
  let d := mkDiagram (Camera.mk (-800) 0 1 800 600) true true true false
                     0.5 1 None in
  exists b1 b2 b3 b4 : Behavior bool,
    construct d = Returns b1 /\
    handleMouseDown 100 100 b1 = Returns b2 /\
    handleMouseMove 90 100 b2 = Returns b3 /\
    handleMouseUp 90 100 b3 = Returns b4 /\
    Panning.left (panning b3) = true /\
    spec_release b3 = ReleaseCorrect /\
    currentState b4 = Value "idle" /\
    Animating.animation (animating b4) = None /\
    calls b4 = [EnterState IdleRef None;
                LeaveState IdleRef;
                EnterState PanningRef
                  (Some (Params.mk (Some 100) (Some 100) None None));
                LeaveState PanningRef;
                EnterState IdleRef None].
Proof.
  intros d. eexists. eexists. eexists. eexists.
  split; [reflexivity|]. split; [reflexivity|].
  unfold handleMouseMove; simpl. unfold Panning_handleMouseMove; simpl.
  rewrite !num_or_nonzero by lra.
  rewrite (handleLimits_lower_band true) by (reflexivity || bounds). simpl.
  rewrite (handleLimits_inside false) by bounds. simpl.
  split; [reflexivity|].
  unfold handleMouseUp; simpl. unfold Panning_handleMouseUp, isBanding; simpl.
  unfold becomeIdle, goto_with; simpl.
  repeat (split; [reflexivity|]). reflexivity.
Qed.


(** * The theorems at concrete machines *)

Lemma goto_steps_witness :
  let b := fresh (K := bool) sample_diagram in
  kinetics_ready b /\
  In "panning"%string supportedStates /\
  exists b', goto "panning" None b = Returns b' /\
             current b' = Some PanningRef /\ last b' = current b.
Proof.
  intros b.
  assert (Hk : kinetics_ready b) by (intros H; discriminate H).
  split; [exact Hk|].
  pose proof (goto_steps "panning" None b Hk) as H.
  change (lookup "panning") with (Some PanningRef) in H.
  destruct H as [Hin (b1 & stops & more & _ & _ & _ & _ & Hend)].
  split; [exact Hin|]. apply Hend. left. discriminate.
Defined.

Lemma forced_animation_ignores_input_witness :
  let ps := Params.mk None None (Some true) (Some (centerOnWorld 0 0 300)) in
  let b0 := fresh (K := bool) sample_diagram in
  exists b, goto "animating" (Some ps) b0 = Returns b /\
            handleStop b = Returns b /\
            (forall x y, handleMouseDown x y b = Returns b).
Proof.
  intros ps b0. eexists. split; [reflexivity|].
  match goal with
  | |- handleStop ?b = _ /\ _ =>
      destruct (forced_animation_ignores_input b0 b ps eq_refl eq_refl)
        as (_ & _ & Hd & _ & Hs & _)
  end.
  split; assumption.
Defined.


Lemma banding_logarithmic_witness :
  let b := pressed (bound_diagram true) in
  Rabs (axis_lower true (Panning.limits (panning b)))
    <= Rabs (-8000 / Camera.scale (camera (diagram b))) /\
  Rabs (fst (handleLimits true (-8000) b)) <= Rabs (-8000).
Proof.
  intros b.
  assert (Hd : Rabs (axis_lower true (Panning.limits (panning b)))
               <= Rabs (-8000 / Camera.scale (camera (diagram b)))).
  { simpl. rewrite !Rabs_left by lra. lra. }
  assert (Hm : axis_min true (camera (diagram b))
               <= axis_lower true (Panning.limits (panning b))) by bounds.
  assert (Hl : axis_lower true (Panning.limits (panning b)) <> 0)
    by (simpl; lra).
  assert (Hs : 0 < Camera.scale (camera (diagram b))) by (simpl; lra).
  split; [exact Hd|].
  destruct (banding_logarithmic true (-8000) b eq_refl Hm Hl Hs Hd)
    as (_ & [_ Hle] & _).
  exact Hle.
Defined.


Lemma Panning_handleMouseUp_release_witness :
  let b := pressed sample_diagram in
  current b = Some PanningRef /\
  Panning.kinetics (panning b) = Some false /\
  exists b', handleMouseUp 400 300 b = Returns b' /\
             currentState b' = Value "idle".
Proof.
  intros b. split; [reflexivity|]. split; [reflexivity|].
  destruct (Panning_handleMouseUp_release 400 300 b false eq_refl eq_refl)
    as (b' & E & _ & _ & _ & Hidle).
  exists b'. split; [exact E|].
  apply Hidle; reflexivity.
Defined.

(** * Invariants of the state machine *)

Section Invariants.

Context {K : Type} {kops : KineticsOps K}.

Lemma leave_cleared (b : Behavior K) (cur : StateRef) :
  settled b -> current b = Some cur ->
  exists b1, leaveState cur (call (LeaveState cur) b) = Returns b1 /\
             cleared b1 /\ current b1 = Some cur /\ last b1 = last b /\
             diagram b1 = diagram b /\
             Animating.forceAnimation (animating b1)
             = Animating.forceAnimation (animating b).
Proof.
  intros (_ & Hk & Ha & Hp) Hc. destruct cur; simpl.
  - eexists. split; [reflexivity|]. unfold cleared. simpl.
    split; [|repeat split; assumption].
    split; [apply Ha; congruence | apply Hp; congruence].
  - unfold Panning_leaveState. simpl.
    destruct (Panning.kinetics (panning b)) as [k|] eqn:E.
    + eexists. split; [reflexivity|]. unfold cleared, panning_reset. simpl.
      split; [|repeat split; assumption].
      split; [apply Ha; congruence | repeat split].
    + exfalso. apply (Hk Hc). exact E.
  - unfold Animating_leaveState. simpl.
    destruct (Animating.animation (animating b)) as [a|] eqn:E.
    + eexists. split; [reflexivity|]. unfold cleared. simpl.
      split; [|repeat split; assumption].
      split; [reflexivity | apply Hp; congruence].
    + eexists. split; [reflexivity|]. unfold cleared. simpl.
      split; [|repeat split; assumption].
      split; [exact E | apply Hp; congruence].
Qed.

Lemma becomeIdle_cleared (b : Behavior K) :
  cleared b -> current b = Some AnimatingRef ->
  exists b', becomeIdle b = Returns b' /\ settled b' /\
             current b' = Some IdleRef /\
             Animating.forceAnimation (animating b')
             = Animating.forceAnimation (animating b).
Proof.
  intros (Ha & Hp) Hc. unfold becomeIdle, goto_with.
  change (lookup "idle") with (Some IdleRef). rewrite Hc.
  cbn [leaveState]. unfold Animating_leaveState.
  cbn [animating call]. rewrite Ha. cbn [bind BaseState_enterState].
  eexists. split; [reflexivity|]. split; [|split; reflexivity].
  unfold settled, kinetics_ready. simpl.
  split; [eexists; reflexivity|]. split; [discriminate|].
  split; intros _; assumption.
Qed.

Lemma enter_settled (s : StateRef) (params : option Params.t)
    (b : Behavior K) :
  cleared b -> current b = Some s ->
  settled (machine (enterState s params (call (EnterState s params) b))).
Proof.
  intros (Ha & Hp) Hc. destruct s; cbn [enterState].
  - unfold settled, kinetics_ready. simpl. rewrite Hc.
    split; [eexists; reflexivity|]. split; [discriminate|].
    split; intros _; assumption.
  - unfold Panning_enterState, Panning_handleMouseDown.
    destruct params; unfold settled, kinetics_ready; simpl; rewrite Hc;
      (split; [eexists; reflexivity|]); (split; [intros _; discriminate|]);
      (split; [intros _; exact Ha | intros H; congruence]).
  - unfold Animating_enterState. destruct params as [ps|].
    + destruct (Params.interpolator ps); unfold settled, kinetics_ready;
        simpl; rewrite Hc;
        (split; [eexists; reflexivity|]); (split; [discriminate|]);
        (split; [intros H; congruence | intros _; exact Hp]).
    + destruct (becomeIdle_cleared (call (EnterState AnimatingRef None) b))
        as (b' & E & Hs & _).
      * split; assumption.
      * exact Hc.
      * rewrite E. exact Hs.
Qed.

Lemma goto_settled (state : string) (params : option Params.t)
    (b : Behavior K) :
  settled b -> settled (machine (goto state params b)).
Proof.
  intros Hs. unfold goto, goto_with.
  destruct (lookup state) as [s|]; [|exact Hs].
  destruct (proj1 Hs) as [cur Hc].
  destruct (leave_cleared b cur Hs Hc) as (b1 & E & Hcl & Hc1 & _).
  rewrite Hc, E. cbn [bind].
  apply (enter_settled s params
           (set_current (Some s) (set_last (current b1) b1))).
  - exact Hcl.
  - reflexivity.
Qed.

Lemma becomeIdle_settled (b : Behavior K) :
  settled b -> settled (machine (becomeIdle b)).
Proof. rewrite becomeIdle_goto. apply goto_settled. Qed.

Lemma handleLimits_animating (horizontal : bool) (drag : R)
    (b : Behavior K) :
  animating (snd (handleLimits horizontal drag b)) = animating b.
Proof.
  unfold handleLimits.
  destruct (Rleb _ _); [destruct (rubberBanding _)|];
    [destruct horizontal; reflexivity | reflexivity |].
  destruct (Rgeb _ _); [destruct (rubberBanding _)|];
    destruct horizontal; reflexivity.
Qed.

Lemma settled_frame (b b' : Behavior K) :
  settled b ->
  current b' = current b ->
  animating b' = animating b ->
  (current b = Some PanningRef -> Panning.kinetics (panning b') <> None) ->
  (current b <> Some PanningRef -> panning b' = panning b) ->
  settled b'.
Proof.
  intros (Hc & Hk & Ha & Hp) Ec Ea Ek Ep. unfold settled, kinetics_ready.
  rewrite Ec, Ea. split; [exact Hc|]. split; [exact Ek|].
  split; [exact Ha|]. intros H. rewrite (Ep H). apply Hp. exact H.
Qed.

Lemma Idle_handleZoom_settled (x y f : R) (b : Behavior K) :
  settled b -> settled (machine (Idle_handleZoom x y f b)).
Proof.
  intros Hs. apply (settled_frame b); try reflexivity; [exact Hs|].
  destruct Hs as (_ & Hk & _). exact Hk.
Qed.

Lemma Panning_handleMouseDown_settled (x y : R) (b : Behavior K) :
  settled b -> current b = Some PanningRef ->
  settled (machine (Panning_handleMouseDown x y b)).
Proof.
  intros Hs Hc. apply (settled_frame b); try reflexivity; [exact Hs| |].
  - destruct Hs as (_ & Hk & _). exact Hk.
  - intros H. contradiction.
Qed.

Lemma goto_panning_returns (b : Behavior K) :
  settled b ->
  exists b', goto "panning" None b = Returns b' /\ settled b' /\
             current b' = Some PanningRef.
Proof.
  intros Hs. pose proof (goto_settled "panning" None b Hs) as Hg.
  destruct (proj1 Hs) as [cur Hc].
  destruct (leave_cleared b cur Hs Hc) as (b1 & E & _).
  revert Hg. unfold goto, goto_with.
  change (lookup "panning") with (Some PanningRef).
  rewrite Hc, E. cbn [bind enterState]. unfold Panning_enterState.
  intros Hg. eexists. split; [reflexivity|]. split; [exact Hg | reflexivity].
Qed.

Lemma becomeIdle_returns (b : Behavior K) :
  settled b ->
  exists b', becomeIdle b = Returns b' /\ settled b' /\
             current b' = Some IdleRef /\
             Animating.animation (animating b') = None /\
             Animating.forceAnimation (animating b')
             = Animating.forceAnimation (animating b) /\
             diagram b' = diagram b.
Proof.
  intros Hs. pose proof (becomeIdle_settled b Hs) as Hg.
  destruct (proj1 Hs) as [cur Hc].
  destruct (leave_cleared b cur Hs Hc) as (b1 & E & Hcl & _ & _ & Hd & Hf).
  revert Hg. unfold becomeIdle, goto_with.
  change (lookup "idle") with (Some IdleRef).
  rewrite Hc, E. cbn [bind BaseState_enterState].
  intros Hg. eexists. split; [reflexivity|]. split; [exact Hg|].
  split; [reflexivity|]. split; [exact (proj1 Hcl)|].
  split; [exact Hf | exact Hd].
Qed.

Lemma Panning_handleMouseMove_settled (x y : R) (b : Behavior K) :
  settled b -> current b = Some PanningRef ->
  exists b', Panning_handleMouseMove x y b = Returns b' /\ settled b'.
Proof.
  intros Hs Hc.
  assert (Hk : Panning.kinetics (panning b) <> None).
  { destruct Hs as (_ & Hk & _). apply Hk. exact Hc. }
  unfold Panning_handleMouseMove.
  set (dragX := Panning.pressedX (panning b) - Panning.anchorX (panning b) - x).
  set (dragY := Panning.pressedY (panning b) - Panning.anchorY (panning b) - y).
  assert (Hb2 : forall (lx ly : R) (b2 : Behavior K),
            current b2 = current b ->
            Panning.kinetics (panning b2) = Panning.kinetics (panning b) ->
            animating b2 = animating b ->
            exists b',
              (b3 <- (if useKinetics (diagram b2)
                      then
                        match Panning.kinetics (panning b2) with
                        | Some k =>
                            Returns
                              (set_panning
                                 (Panning.mk (Panning.limits (panning b2))
                                    (Panning.anchorX (panning b2))
                                    (Panning.anchorY (panning b2))
                                    (Panning.pressedX (panning b2))
                                    (Panning.pressedY (panning b2))
                                    (Some (kinetics_update dragX dragY k))
                                    (Panning.left (panning b2))
                                    (Panning.right (panning b2))
                                    (Panning.bottom (panning b2))
                                    (Panning.top (panning b2))) b2)
                        | None => Throws b2
                        end
                      else Returns b2) ;;
               Returns (set_camera
                          (Camera.moveTo lx ly (camera (diagram b3))) b3))
              = Returns b' /\ settled b').
  { intros lx ly b2 Hc2 Hk2 Ha2.
    destruct (useKinetics (diagram b2)).
    - destruct (Panning.kinetics (panning b2)) eqn:E; [|congruence].
      cbn [bind]. eexists. split; [reflexivity|].
      apply (settled_frame b); [exact Hs | exact Hc2 | exact Ha2 | |].
      + intros _. simpl. discriminate.
      + intros H. contradiction.
    - cbn [bind]. eexists. split; [reflexivity|].
      apply (settled_frame b); [exact Hs | exact Hc2 | exact Ha2 | |].
      + intros _. simpl. rewrite Hk2. exact Hk.
      + intros H. contradiction. }
  destruct (respectLimits (diagram b)).
  - destruct (handleLimits true dragX b) as [lx b1] eqn:E1.
    destruct (handleLimits false dragY b1) as [ly b2] eqn:E2.
    pose proof (handleLimits_keeps true dragX b) as (H1 & H2 & _).
    pose proof (handleLimits_animating true dragX b) as H5.
    rewrite E1 in H1, H2, H5. cbn [snd] in H1, H2, H5.
    pose proof (handleLimits_keeps false dragY b1) as (H3 & H4 & _).
    pose proof (handleLimits_animating false dragY b1) as H6.
    rewrite E2 in H3, H4, H6. cbn [snd] in H3, H4, H6.
    apply Hb2; congruence.
  - apply Hb2; reflexivity.
Qed.

Lemma Panning_handleMouseUp_settled (x y : R) (b : Behavior K) :
  settled b -> current b = Some PanningRef ->
  exists b', Panning_handleMouseUp x y b = Returns b' /\ settled b'.
Proof.
  intros Hs Hc.
  assert (Hk : exists k, Panning.kinetics (panning b) = Some k).
  { destruct Hs as (_ & Hk & _). specialize (Hk Hc).
    destruct (Panning.kinetics (panning b)) as [k|];
      [exists k; reflexivity | contradiction]. }
  destruct Hk as [k Hk].
  assert (Hanim : forall a,
            exists b', goto "animating"
                         (Some (Params.mk None None (Some false) (Some a))) b
                       = Returns b' /\ settled b').
  { intros a.
    destruct (animate_from_panning b k (Some false) a Hc Hk)
      as (b' & E & _).
    exists b'. split; [exact E|].
    pose proof (goto_settled "animating"
                  (Some (Params.mk None None (Some false) (Some a))) b Hs)
      as Hg.
    rewrite E in Hg. exact Hg. }
  assert (Hidle : exists b', becomeIdle b = Returns b' /\ settled b').
  { destruct (becomeIdle_returns b Hs) as (b' & E & Hs' & _).
    exists b'. split; assumption. }
  unfold Panning_handleMouseUp, isKinetic. rewrite Hk.
  destruct (isBanding b).
  - destruct (animatedNavigation (diagram b)); [apply Hanim | exact Hidle].
  - destruct (useKinetics (diagram b));
      [destruct (kinetics_hasEnoughMomentum k)|];
      [apply Hanim | exact Hidle | exact Hidle].
Qed.

(** Every input event returns on a settled machine, and leaves it
    settled. *)
Lemma input_returns (e : Event) (b : Behavior K) :
  settled b -> input_event e = true ->
  exists b', handle e b = Returns b' /\ settled b'.
Proof.
  intros Hs He. destruct (proj1 Hs) as [cur Hc].
  assert (Hsame : exists b', Returns b = Returns b' /\ settled b')
    by (exists b; split; [reflexivity | exact Hs]).
  assert (Hgoto : forall a,
            exists b', goto "animating"
                         (Some (Params.mk None None None (Some a))) b
                       = Returns b' /\ settled b').
  { intros a.
    pose proof (goto_settled "animating"
                  (Some (Params.mk None None None (Some a))) b Hs) as Hg.
    destruct (leave_cleared b cur Hs Hc) as (b1 & E & _).
    revert Hg. unfold goto, goto_with.
    change (lookup "animating") with (Some AnimatingRef).
    rewrite Hc, E. cbn [bind enterState]. unfold Animating_enterState.
    cbn [Params.interpolator].
    intros Hg. eexists. split; [reflexivity | exact Hg]. }
  destruct e; try discriminate He; cbn [handle].
  - unfold handleNavigation. rewrite Hc. destruct cur; try exact Hsame.
    apply Hgoto.
  - unfold handleClick. rewrite Hc. destruct cur; try exact Hsame.
    unfold Idle_handleClick. destruct double; [apply Hgoto|].
    destruct (scope_current (diagram b)); [apply Hgoto | exact Hsame].
  - unfold handleMouseDown. rewrite Hc. destruct cur.
    + unfold Idle_handleMouseDown.
      pose proof (goto_settled "panning"
                    (Some (Params.mk (Some x) (Some y) None None)) b Hs)
        as Hg.
      destruct (leave_cleared b IdleRef Hs Hc) as (b1 & E & _).
      revert Hg. unfold goto, goto_with.
      change (lookup "panning") with (Some PanningRef).
      rewrite Hc, E. cbn [bind enterState].
      unfold Panning_enterState, Panning_handleMouseDown.
      intros Hg. eexists. split; [reflexivity | exact Hg].
    + eexists. split; [reflexivity|].
      apply (Panning_handleMouseDown_settled x y b Hs Hc).
    + unfold Animating_handleMouseDown.
      destruct (negb _); [|exact Hsame].
      destruct (goto_panning_returns b Hs) as (b1 & E & Hs1 & Hc1).
      rewrite E. cbn [bind]. rewrite Hc1.
      eexists. split; [reflexivity|].
      apply (Panning_handleMouseDown_settled x y b1 Hs1 Hc1).
  - unfold handleMouseMove. rewrite Hc. destruct cur; try exact Hsame.
    apply Panning_handleMouseMove_settled; assumption.
  - unfold handleMouseUp. rewrite Hc. destruct cur; try exact Hsame.
    apply Panning_handleMouseUp_settled; assumption.
  - unfold handleZoom. rewrite Hc. destruct cur; try exact Hsame.
    + eexists. split; [reflexivity|]. apply Idle_handleZoom_settled. exact Hs.
    + unfold Animating_handleZoom.
      destruct (negb _); [|exact Hsame].
      destruct (becomeIdle_returns b Hs) as (b1 & E & Hs1 & Hc1 & _).
      rewrite E. cbn [bind]. rewrite Hc1.
      eexists. split; [reflexivity|].
      apply Idle_handleZoom_settled. exact Hs1.
  - unfold handleKey. rewrite Hc. exact Hsame.
  - unfold handleAbort. rewrite Hc. destruct cur; try exact Hsame.
    unfold Animating_handleAbort.
    destruct (becomeIdle_returns b Hs) as (b1 & E & Hs1 & _).
    exists b1. split; assumption.
  - unfold handleStop. rewrite Hc. destruct cur; try exact Hsame.
    unfold Animating_handleStop. destruct (negb _); [|exact Hsame].
    destruct (becomeIdle_returns b Hs) as (b1 & E & Hs1 & _).
    exists b1. split; assumption.
Qed.

Lemma reenter_settled (params : option Params.t) (b : Behavior K) :
  settled b -> settled (machine (reenter params b)).
Proof.
  intros Hs. destruct (proj1 Hs) as [cur Hc].
  destruct (leave_cleared b cur Hs Hc) as (b1 & E & Hcl & Hc1 & _).
  unfold reenter. rewrite Hc, E. cbn [bind]. rewrite Hc1.
  apply enter_settled; assumption.
Qed.

Lemma handle_settled (e : Event) (b : Behavior K) :
  settled b -> settled (machine (handle e b)).
Proof.
  intros Hs. destruct (input_event e) eqn:He.
  - destruct (input_returns e b Hs He) as (b' & E & Hs'). rewrite E.
    exact Hs'.
  - destruct e; try discriminate He; cbn [handle].
    + apply goto_settled. exact Hs.
    + apply reenter_settled. exact Hs.
Qed.

Lemma construct_settled (d : Diagram) :
  settled (machine (construct (K := K) d)).
Proof.
  unfold settled, kinetics_ready, panning_reset. simpl.
  split; [eexists; reflexivity|]. split; [discriminate|].
  split; [reflexivity|]. intros _. repeat split.
Qed.

Lemma reachable_settled (b : Behavior K) : reachable b -> settled b.
Proof.
  induction 1 as [d | e b _ IH].
  - apply construct_settled.
  - apply handle_settled. exact IH.
Qed.

End Invariants.
(** * What holds of every reachable machine *)

Section Reachable.

Context {K : Type} {kops : KineticsOps K}.

(** X1: on a machine reached by construction and events, no input event
    (navigation, click, pointer, wheel, key, abort, stop) throws. *)
Theorem input_events_never_throw (e : Event) (b : Behavior K) :
  reachable b -> input_event e = true ->
  exists b', handle e b = Returns b' /\ reachable b'.
Proof.
  intros Hr He.
  destruct (input_returns e b (reachable_settled b Hr) He) as (b' & E & _).
  exists b'. split; [exact E|].
  replace b' with (machine (handle e b)) by (rewrite E; reflexivity).
  apply reachable_handle. exact Hr.
Qed.

(** X2: a reachable machine always has a current state, and
    [currentState()] returns the name of a supported state. *)
Theorem reachable_currentState (b : Behavior K) :
  reachable b ->
  exists s, current b = Some s /\ currentState b = Value (name s) /\
            In (name s) supportedStates.
Proof.
  intros Hr. destruct (reachable_settled b Hr) as ([s Hc] & _).
  exists s. split; [exact Hc|]. unfold currentState. rewrite Hc.
  split; [reflexivity|].
  destruct s; simpl; auto.
Qed.

(** X3: a reachable machine holds an animation only while the animating
    state is current. *)
Theorem reachable_animation_only_animating (b : Behavior K) :
  reachable b -> current b <> Some AnimatingRef ->
  Animating.animation (animating b) = None.
Proof.
  intros Hr. destruct (reachable_settled b Hr) as (_ & _ & Ha & _).
  exact Ha.
Qed.

(** X4: in a reachable machine whose current state is not the panning
    state, no edge is marked violated and the press and anchor points are
    zero. *)
Theorem reachable_panning_reset (b : Behavior K) :
  reachable b -> current b <> Some PanningRef ->
  isBanding b = false /\
  Panning.left (panning b) = false /\ Panning.right (panning b) = false /\
  Panning.bottom (panning b) = false /\ Panning.top (panning b) = false /\
  Panning.anchorX (panning b) = 0 /\ Panning.anchorY (panning b) = 0 /\
  Panning.pressedX (panning b) = 0 /\ Panning.pressedY (panning b) = 0.
Proof.
  intros Hr Hc. destruct (reachable_settled b Hr) as (_ & _ & _ & Hp).
  destruct (Hp Hc) as (H1 & H2 & H3 & H4 & H5 & H6 & H7 & H8).
  unfold isBanding. rewrite H5, H6, H7, H8.
  split; [apply andb_false_r|]. repeat split; assumption.
Qed.

End Reachable.
(** * Animations are played one at a time *)

Section OneAnimation.

Context {K : Type} {kops : KineticsOps K}.

Lemma leave_plays (b b1 : Behavior K) (cur : StateRef) :
  settled b -> plays_held b -> current b = Some cur ->
  leaveState cur (call (LeaveState cur) b) = Returns b1 ->
  plays (calls b1) None.
Proof.
  intros (_ & _ & Ha & _) Hp Hc. unfold plays_held in Hp.
  destruct cur; cbn [leaveState].
  - intros [= <-]. cbn [calls call]. apply plays_leave.
    rewrite <- (Ha ltac:(congruence)). exact Hp.
  - unfold Panning_leaveState. cbn [panning call].
    destruct (Panning.kinetics (panning b)); intros [= <-].
    cbn [calls call set_panning]. apply plays_leave.
    rewrite <- (Ha ltac:(congruence)). exact Hp.
  - unfold Animating_leaveState. cbn [animating call].
    destruct (Animating.animation (animating b)) as [a|]; intros [= <-].
    + cbn [calls call set_animating]. apply plays_stop. apply plays_leave.
      exact Hp.
    + cbn [calls call]. apply plays_leave. exact Hp.
Qed.

Lemma enter_plays (s : StateRef) (params : option Params.t) (b : Behavior K) :
  cleared b -> plays (calls b) None -> current b = Some s ->
  plays_held (machine (enterState s params (call (EnterState s params) b))).
Proof.
  intros (Ha & _) Hp Hc. unfold plays_held.
  destruct s; cbn [enterState].
  - cbn [BaseState_enterState machine calls call animating]. rewrite Ha.
    apply plays_enter. exact Hp.
  - unfold Panning_enterState, Panning_handleMouseDown.
    destruct params; cbn [machine calls call animating set_panning];
      rewrite Ha; apply plays_enter; exact Hp.
  - unfold Animating_enterState. destruct params as [ps|].
    + destruct (Params.interpolator ps) as [a|];
        cbn [machine calls call animating set_animating
             Animating.animation].
      * apply plays_play. apply plays_enter. exact Hp.
      * apply plays_enter. exact Hp.
    + unfold becomeIdle, goto_with.
      change (lookup "idle") with (Some IdleRef).
      cbn [current call]. rewrite Hc. cbn [leaveState].
      unfold Animating_leaveState. cbn [animating call]. rewrite Ha.
      cbn [bind BaseState_enterState machine calls call animating
           set_current set_last].
      rewrite Ha. apply plays_enter. apply plays_leave. apply plays_enter.
      exact Hp.
Qed.

Lemma goto_plays (state : string) (params : option Params.t)
    (b : Behavior K) :
  settled b -> plays_held b -> plays_held (machine (goto state params b)).
Proof.
  intros Hs Hp. unfold goto, goto_with.
  destruct (lookup state) as [s|]; [|exact Hp].
  destruct (proj1 Hs) as [cur Hc].
  destruct (leave_cleared b cur Hs Hc) as (b1 & E & Hcl & _).
  pose proof (leave_plays b b1 cur Hs Hp Hc E) as Hp1.
  rewrite Hc, E. cbn [bind].
  apply (enter_plays s params
           (set_current (Some s) (set_last (current b1) b1)));
    [exact Hcl | exact Hp1 | reflexivity].
Qed.

Lemma reenter_plays (params : option Params.t) (b : Behavior K) :
  settled b -> plays_held b -> plays_held (machine (reenter params b)).
Proof.
  intros Hs Hp. destruct (proj1 Hs) as [cur Hc].
  destruct (leave_cleared b cur Hs Hc) as (b1 & E & Hcl & Hc1 & _).
  pose proof (leave_plays b b1 cur Hs Hp Hc E) as Hp1.
  unfold reenter. rewrite Hc, E. cbn [bind]. rewrite Hc1.
  apply enter_plays; assumption.
Qed.

Lemma handleLimits_calls (horizontal : bool) (drag : R) (b : Behavior K) :
  calls (snd (handleLimits horizontal drag b)) = calls b.
Proof.
  unfold handleLimits.
  destruct (Rleb _ _); [destruct (rubberBanding _)|];
    [destruct horizontal; reflexivity | reflexivity |].
  destruct (Rgeb _ _); [destruct (rubberBanding _)|];
    destruct horizontal; reflexivity.
Qed.

Lemma Panning_handleMouseMove_log (x y : R) (b : Behavior K) :
  calls (machine (Panning_handleMouseMove x y b)) = calls b /\
  animating (machine (Panning_handleMouseMove x y b)) = animating b.
Proof.
  unfold Panning_handleMouseMove.
  set (dragX := Panning.pressedX (panning b) - Panning.anchorX (panning b) - x).
  set (dragY := Panning.pressedY (panning b) - Panning.anchorY (panning b) - y).
  assert (Hb2 : forall (lx ly : R) (b2 : Behavior K),
            calls b2 = calls b -> animating b2 = animating b ->
            calls (machine
              (b3 <- (if useKinetics (diagram b2)
                      then
                        match Panning.kinetics (panning b2) with
                        | Some k =>
                            Returns
                              (set_panning
                                 (Panning.mk (Panning.limits (panning b2))
                                    (Panning.anchorX (panning b2))
                                    (Panning.anchorY (panning b2))
                                    (Panning.pressedX (panning b2))
                                    (Panning.pressedY (panning b2))
                                    (Some (kinetics_update dragX dragY k))
                                    (Panning.left (panning b2))
                                    (Panning.right (panning b2))
                                    (Panning.bottom (panning b2))
                                    (Panning.top (panning b2))) b2)
                        | None => Throws b2
                        end
                      else Returns b2) ;;
               Returns (set_camera
                          (Camera.moveTo lx ly (camera (diagram b3))) b3)))
            = calls b /\
            animating (machine
              (b3 <- (if useKinetics (diagram b2)
                      then
                        match Panning.kinetics (panning b2) with
                        | Some k =>
                            Returns
                              (set_panning
                                 (Panning.mk (Panning.limits (panning b2))
                                    (Panning.anchorX (panning b2))
                                    (Panning.anchorY (panning b2))
                                    (Panning.pressedX (panning b2))
                                    (Panning.pressedY (panning b2))
                                    (Some (kinetics_update dragX dragY k))
                                    (Panning.left (panning b2))
                                    (Panning.right (panning b2))
                                    (Panning.bottom (panning b2))
                                    (Panning.top (panning b2))) b2)
                        | None => Throws b2
                        end
                      else Returns b2) ;;
               Returns (set_camera
                          (Camera.moveTo lx ly (camera (diagram b3))) b3)))
            = animating b).
  { intros lx ly b2 Hc Ha.
    destruct (useKinetics (diagram b2));
      [destruct (Panning.kinetics (panning b2))|];
      cbn [bind machine]; split; assumption. }
  destruct (respectLimits (diagram b)).
  - destruct (handleLimits true dragX b) as [lx b1] eqn:E1.
    destruct (handleLimits false dragY b1) as [ly b2] eqn:E2.
    pose proof (handleLimits_calls true dragX b) as H1.
    pose proof (handleLimits_animating true dragX b) as H2.
    rewrite E1 in H1, H2. cbn [snd] in H1, H2.
    pose proof (handleLimits_calls false dragY b1) as H3.
    pose proof (handleLimits_animating false dragY b1) as H4.
    rewrite E2 in H3, H4. cbn [snd] in H3, H4.
    apply Hb2; congruence.
  - apply Hb2; reflexivity.
Qed.

Lemma handle_plays (e : Event) (b : Behavior K) :
  settled b -> plays_held b -> plays_held (machine (handle e b)).
Proof.
  intros Hs Hp. destruct (proj1 Hs) as [cur Hc].
  assert (Hidle : plays_held (machine (becomeIdle b))).
  { rewrite becomeIdle_goto. apply goto_plays; assumption. }
  destruct e; cbn [handle].
  - unfold handleNavigation. rewrite Hc. destruct cur; try exact Hp.
    apply goto_plays; assumption.
  - unfold handleClick. rewrite Hc. destruct cur; try exact Hp.
    unfold Idle_handleClick. destruct double; [apply goto_plays; assumption|].
    destruct (scope_current (diagram b)); [apply goto_plays|]; assumption.
  - unfold handleMouseDown. rewrite Hc. destruct cur.
    + apply goto_plays; assumption.
    + exact Hp.
    + unfold Animating_handleMouseDown. destruct (negb _); [|exact Hp].
      pose proof (goto_plays "panning" None b Hs Hp) as Hg.
      destruct (goto_panning_returns b Hs) as (b1 & E & _ & Hc1).
      rewrite E in Hg |- *. cbn [bind]. rewrite Hc1. exact Hg.
  - unfold handleMouseMove. rewrite Hc. destruct cur; try exact Hp.
    unfold plays_held.
    destruct (Panning_handleMouseMove_log x y b) as [-> ->]. exact Hp.
  - unfold handleMouseUp. rewrite Hc. destruct cur; try exact Hp.
    unfold Panning_handleMouseUp.
    destruct (isBanding b).
    + destruct (animatedNavigation (diagram b));
        [apply goto_plays; assumption | exact Hidle].
    + destruct (isKinetic b) as [[|]|]; [|exact Hidle|exact Hp].
      destruct (Panning.kinetics (panning b));
        [apply goto_plays; assumption | exact Hp].
  - unfold handleZoom. rewrite Hc. destruct cur; try exact Hp.
    unfold Animating_handleZoom. destruct (negb _); [|exact Hp].
    destruct (becomeIdle_returns b Hs) as (b1 & E & _ & Hc1 & _).
    rewrite E in Hidle |- *. cbn [bind]. rewrite Hc1. exact Hidle.
  - unfold handleKey. rewrite Hc. exact Hp.
  - unfold handleAbort. rewrite Hc. destruct cur; try exact Hp.
    exact Hidle.
  - unfold handleStop. rewrite Hc. destruct cur; try exact Hp.
    unfold Animating_handleStop. destruct (negb _); [exact Hidle | exact Hp].
  - apply goto_plays; assumption.
  - apply reenter_plays; assumption.
Qed.

Lemma plays_snoc_inv (l : list Call) (c : Call) (o : option Animation) :
  plays (l ++ [c]) o ->
  match c with
  | Play a => plays l None /\ o = Some a
  | Stop a => plays l (Some a) /\ o = None
  | LeaveState _ | EnterState _ _ => plays l o
  end.
Proof.
  intros H. inversion H as [E | l' a H' E | l' a H' E | l' o' s H' E
                            | l' o' s ps H' E].
  - destruct l; discriminate E.
  - apply app_inj_tail in E as [-> <-]. split; [exact H' | reflexivity].
  - apply app_inj_tail in E as [-> <-]. split; [exact H' | reflexivity].
  - apply app_inj_tail in E as [-> <-]. subst. exact H'.
  - apply app_inj_tail in E as [-> <-]. subst. exact H'.
Qed.

Lemma plays_prefix (l l' : list Call) (o : option Animation) :
  plays (l ++ l') o -> exists o', plays l o'.
Proof.
  revert o. induction l' as [|c l' IH] using rev_ind; intros o H.
  - rewrite app_nil_r in H. exists o. exact H.
  - rewrite app_assoc in H. apply plays_snoc_inv in H.
    destruct c; [apply (IH o H) | apply (IH o H)
                 | destruct H as [H _]; apply (IH None H)
                 | destruct H as [H _]; apply (IH (Some a) H)].
Qed.

Lemma plays_stop_between (l l2 : list Call) (a : Animation)
    (o : option Animation) :
  plays (l ++ [Play a]) (Some a) -> plays ((l ++ [Play a]) ++ l2) o ->
  In (Stop a) l2 \/ o = Some a.
Proof.
  intros Hl. revert o. induction l2 as [|c l2 IH] using rev_ind; intros o H.
  - rewrite app_nil_r in H. apply plays_snoc_inv in H. right. apply H.
  - rewrite app_assoc in H. apply plays_snoc_inv in H.
    destruct c as [s | s ps | a' | a'].
    + destruct (IH o H) as [Hin | Ho]; [left; apply in_or_app; auto | auto].
    + destruct (IH o H) as [Hin | Ho]; [left; apply in_or_app; auto | auto].
    + destruct H as [H _].
      destruct (IH None H) as [Hin | Ho];
        [left; apply in_or_app; auto | discriminate Ho].
    + destruct H as [H _]. left. apply in_or_app.
      destruct (IH (Some a') H) as [Hin | Ho]; [auto|].
      injection Ho as ->. right. left. reflexivity.
Qed.

(** X5: in the log of a reachable machine an animation is played only while
    none is playing, and stopped only while it is the one playing; the one
    playing at the end of the log is the one the animating state holds.  So
    between two animations played, the first has been stopped. *)
Theorem reachable_one_animation (b : Behavior K) :
  reachable b ->
  plays (calls b) (Animating.animation (animating b)) /\
  forall l1 a l2 a' l3,
    calls b = l1 ++ Play a :: l2 ++ Play a' :: l3 -> In (Stop a) l2.
Proof.
  intros Hr.
  assert (Hp : plays (calls b) (Animating.animation (animating b))).
  { induction Hr as [d | e b Hr IH].
    - cbn. apply (plays_enter [] None IdleRef None). apply plays_nil.
    - apply handle_plays; [apply reachable_settled; exact Hr | exact IH]. }
  split; [exact Hp|].
  intros l1 a l2 a' l3 E. rewrite E in Hp.
  replace (l1 ++ Play a :: l2 ++ Play a' :: l3)
    with ((((l1 ++ [Play a]) ++ l2) ++ [Play a']) ++ l3) in Hp
    by (rewrite <- !app_assoc; reflexivity).
  apply plays_prefix in Hp as [o1 H1].
  apply plays_snoc_inv in H1 as [H1 _].
  destruct (plays_prefix _ _ _ H1) as [o2 H2].
  pose proof (plays_snoc_inv _ _ _ H2) as [_ ->].
  destruct (plays_stop_between l1 l2 a None H2 H1) as [Hin | Ho];
    [exact Hin | discriminate Ho].
Qed.

End OneAnimation.
(** * Transitions on input events *)

Lemma num_or_0 (x : R) : num_or x 0 = x.
Proof. unfold num_or. destruct (Req_dec_T x 0); congruence. Qed.

Section Transitions.

Context {K : Type} {kops : KineticsOps K}.

(** X6: from [Idle], a pointer-down at [(x, y)] takes a reachable machine
    to [Panning] with [Idle] as the last state, the press point [(x, y)],
    the camera position as the anchor, kinetics at hand and no edge marked
    violated; the camera is not moved. *)
Theorem idle_pointer_down (x y : R) (b : Behavior K) :
  reachable b -> current b = Some IdleRef ->
  exists b',
    handleMouseDown x y b = Returns b' /\
    current b' = Some PanningRef /\ last b' = Some IdleRef /\
    Panning.pressedX (panning b') = x /\ Panning.pressedY (panning b') = y /\
    Panning.anchorX (panning b') = Camera.cameraX (camera (diagram b)) /\
    Panning.anchorY (panning b') = Camera.cameraY (camera (diagram b)) /\
    Panning.kinetics (panning b') <> None /\
    isBanding b' = false /\
    diagram b' = diagram b.
Proof.
  intros Hr Hc.
  destruct (reachable_settled b Hr) as (_ & _ & _ & Hp).
  destruct (Hp ltac:(congruence)) as (_ & _ & _ & _ & H5 & H6 & H7 & H8).
  unfold handleMouseDown. rewrite Hc.
  unfold Idle_handleMouseDown, goto, goto_with.
  change (lookup "panning") with (Some PanningRef).
  rewrite Hc. cbn [leaveState BaseState_leaveState bind enterState].
  unfold Panning_enterState, Panning_handleMouseDown.
  cbn [opt_num_or Params.x Params.y]. rewrite !num_or_0.
  eexists. split; [reflexivity|]. cbn.
  rewrite Hc, H5, H6, H7, H8.
  do 6 (split; [reflexivity|]).
  split; [destruct (Panning.kinetics (panning b)); discriminate|].
  split; [unfold isBanding; cbn; apply andb_false_r | reflexivity].
Qed.

(** X7: a pointer-down at [(x, y)] during an animation that is not forced
    stops the animation and takes the machine to [Panning], with the press
    point [(x, y)] and the camera position of that moment as the anchor. *)
Theorem repress_during_animation (x y : R) (b : Behavior K)
    (a : Animation) :
  current b = Some AnimatingRef ->
  Animating.forceAnimation (animating b) = false ->
  Animating.animation (animating b) = Some a ->
  exists b',
    handleMouseDown x y b = Returns b' /\
    current b' = Some PanningRef /\ last b' = Some AnimatingRef /\
    Animating.animation (animating b') = None /\
    calls b' = calls b ++ [LeaveState AnimatingRef; Stop a;
                           EnterState PanningRef None] /\
    Panning.pressedX (panning b') = x /\ Panning.pressedY (panning b') = y /\
    Panning.anchorX (panning b') = Camera.cameraX (camera (diagram b)) /\
    Panning.anchorY (panning b') = Camera.cameraY (camera (diagram b)) /\
    Panning.kinetics (panning b') <> None /\
    diagram b' = diagram b.
Proof.
  intros Hc Hf Ha.
  unfold handleMouseDown. rewrite Hc.
  unfold Animating_handleMouseDown. rewrite Hf. cbn [negb].
  unfold goto, goto_with.
  change (lookup "panning") with (Some PanningRef).
  rewrite Hc. cbn [leaveState]. unfold Animating_leaveState.
  cbn [animating call]. rewrite Ha.
  cbn [bind enterState]. unfold Panning_enterState.
  cbn [bind current set_current]. unfold Panning_handleMouseDown.
  eexists. split; [reflexivity|]. cbn. rewrite Hc.
  do 3 (split; [reflexivity|]).
  split; [rewrite <- !app_assoc; reflexivity|].
  do 4 (split; [reflexivity|]).
  split; [destruct (Panning.kinetics (panning b)); discriminate|].
  reflexivity.
Qed.

(** X8: a wheel event during an animation that is not forced stops the
    animation, returns to [Idle] and then zooms as the idle state does: the
    camera ends as [Idle.handleZoom] would leave it from where the
    animation left it. *)
Theorem wheel_during_animation (x y f : R) (b : Behavior K)
    (a : Animation) :
  current b = Some AnimatingRef ->
  Animating.forceAnimation (animating b) = false ->
  Animating.animation (animating b) = Some a ->
  exists b',
    handleZoom x y f b = Returns b' /\
    current b' = Some IdleRef /\ last b' = Some AnimatingRef /\
    Animating.animation (animating b') = None /\
    calls b' = calls b ++ [LeaveState AnimatingRef; Stop a;
                           EnterState IdleRef None] /\
    camera (diagram b')
    = camera (diagram (machine (Idle_handleZoom x y f b))).
Proof.
  intros Hc Hf Ha.
  unfold handleZoom. rewrite Hc.
  unfold Animating_handleZoom. rewrite Hf. cbn [negb].
  unfold becomeIdle, goto_with.
  change (lookup "idle") with (Some IdleRef).
  rewrite Hc. cbn [leaveState]. unfold Animating_leaveState.
  cbn [animating call]. rewrite Ha.
  cbn [bind BaseState_enterState current set_current].
  unfold Idle_handleZoom.
  eexists. split; [reflexivity|]. cbn. rewrite Hc.
  do 3 (split; [reflexivity|]).
  split; [rewrite <- !app_assoc; reflexivity|].
  reflexivity.
Qed.

Lemma driven_reachable (b : Behavior K) : driven b -> reachable b.
Proof.
  induction 1 as [d | e b He _ IH].
  - apply reachable_construct.
  - apply reachable_handle. exact IH.
Qed.

Lemma goto_unforced (state : string) (ps : Params.t) (b : Behavior K) :
  settled b ->
  Animating.forceAnimation (animating b) = false ->
  Params.forced ps <> Some true ->
  Animating.forceAnimation (animating (machine (goto state (Some ps) b)))
  = false.
Proof.
  intros Hs Hf Hp. destruct (proj1 Hs) as [cur Hc].
  destruct (leave_cleared b cur Hs Hc) as (b1 & E & _ & _ & _ & _ & Hf1).
  unfold goto, goto_with. destruct (lookup state) as [s|]; [|exact Hf].
  rewrite Hc, E. cbn [bind]. destruct s; cbn [enterState].
  - cbn. congruence.
  - unfold Panning_enterState, Panning_handleMouseDown. cbn. congruence.
  - unfold Animating_enterState.
    destruct (Params.forced ps) as [[|]|]; [congruence| |];
      destruct (Params.interpolator ps); reflexivity.
Qed.

Lemma input_unforced (e : Event) (b : Behavior K) :
  settled b -> input_event e = true ->
  Animating.forceAnimation (animating b) = false ->
  Animating.forceAnimation (animating (machine (handle e b))) = false.
Proof.
  intros Hs He Hf. destruct (proj1 Hs) as [cur Hc].
  assert (Hidle : Animating.forceAnimation
                    (animating (machine (becomeIdle b))) = false).
  { destruct (becomeIdle_returns b Hs) as (b1 & E & _ & _ & _ & Hf1 & _).
    rewrite E. cbn [machine]. congruence. }
  assert (Hgoto : forall state ps, Params.forced ps <> Some true ->
            Animating.forceAnimation
              (animating (machine (goto state (Some ps) b))) = false).
  { intros state ps Hp. apply goto_unforced; assumption. }
  destruct e; try discriminate He; cbn [handle].
  - unfold handleNavigation. rewrite Hc. destruct cur; try exact Hf.
    apply Hgoto. discriminate.
  - unfold handleClick. rewrite Hc. destruct cur; try exact Hf.
    unfold Idle_handleClick. destruct double; [apply Hgoto; discriminate|].
    destruct (scope_current (diagram b));
      [apply Hgoto; discriminate | exact Hf].
  - unfold handleMouseDown. rewrite Hc. destruct cur.
    + apply Hgoto. discriminate.
    + exact Hf.
    + unfold Animating_handleMouseDown. destruct (negb _); [|exact Hf].
      destruct (goto_panning_returns b Hs) as (b1 & E & _ & Hc1).
      rewrite E. cbn [bind]. rewrite Hc1.
      cbn [machine Panning_handleMouseDown animating set_panning].
      revert E. unfold goto, goto_with.
      change (lookup "panning") with (Some PanningRef).
      destruct (leave_cleared b AnimatingRef Hs Hc)
        as (b2 & E2 & _ & _ & _ & _ & Hf2).
      rewrite Hc, E2. cbn [bind enterState]. unfold Panning_enterState.
      intros [= <-]. cbn. congruence.
  - unfold handleMouseMove. rewrite Hc. destruct cur; try exact Hf.
    destruct (Panning_handleMouseMove_log x y b) as [_ ->]. exact Hf.
  - unfold handleMouseUp. rewrite Hc. destruct cur; try exact Hf.
    unfold Panning_handleMouseUp.
    destruct (isBanding b).
    + destruct (animatedNavigation (diagram b));
        [apply Hgoto; discriminate | exact Hidle].
    + destruct (isKinetic b) as [[|]|]; [|exact Hidle|exact Hf].
      destruct (Panning.kinetics (panning b));
        [apply Hgoto; discriminate | exact Hf].
  - unfold handleZoom. rewrite Hc. destruct cur; try exact Hf.
    unfold Animating_handleZoom. destruct (negb _); [|exact Hf].
    destruct (becomeIdle_returns b Hs) as (b1 & E & _ & Hc1 & _).
    rewrite E in Hidle |- *. cbn [bind]. rewrite Hc1. exact Hidle.
  - unfold handleKey. rewrite Hc. exact Hf.
  - unfold handleAbort. rewrite Hc. destruct cur; try exact Hf. exact Hidle.
  - unfold handleStop. rewrite Hc. destruct cur; try exact Hf.
    unfold Animating_handleStop. destruct (negb _); [exact Hidle | exact Hf].
Qed.

(** X9: a machine driven by input events alone never holds a forced
    animation, so that a stop request in the animating state always stops
    the animation and returns to [Idle]. *)
Theorem driven_animation_stoppable (b : Behavior K) :
  driven b ->
  Animating.forceAnimation (animating b) = false /\
  (current b = Some AnimatingRef ->
   exists b', handleStop b = Returns b' /\
              current b' = Some IdleRef /\
              Animating.animation (animating b') = None /\
              diagram b' = diagram b).
Proof.
  intros Hd.
  assert (Hf : Animating.forceAnimation (animating b) = false).
  { induction Hd as [d | e b He Hd IH].
    - reflexivity.
    - apply input_unforced; [|exact He|exact IH].
      apply reachable_settled. apply driven_reachable. exact Hd. }
  split; [exact Hf|]. intros Hc.
  unfold handleStop. rewrite Hc. unfold Animating_handleStop.
  rewrite Hf. cbn [negb].
  destruct (becomeIdle_returns b
              (reachable_settled b (driven_reachable b Hd)))
    as (b' & E & _ & Hc' & Ha' & _ & Hd').
  exists b'. repeat split; assumption.
Qed.

End Transitions.
(** * The scale of a wheel event *)

Section ZoomRange.

Context {K : Type} {kops : KineticsOps K}.

(** X10: with limits respected and the minimum zoom not above the maximum
    zoom, the scale [Idle.handleZoom] asks for lies between the two,
    whatever the wheel units. *)
Theorem zoomTarget_within_limits (units : R) (b : Behavior K) :
  respectLimits (diagram b) = true ->
  let cam := camera (diagram b) in
  let limits := Idle.limits (idle b) in
  let w := Camera.visualWidth cam in
  let h := Camera.visualHeight cam in
  let minZoom := if Rgtb w h
                 then w / (Limits.right limits - Limits.left limits)
                 else h / (Limits.bottom limits - Limits.top limits) in
  minZoom <= Idle.maxZoom (idle b) ->
  minZoom <= zoomTarget units b <= Idle.maxZoom (idle b).
Proof.
  intros Hr cam limits w h minZoom Hle.
  unfold zoomTarget. rewrite Hr. fold cam limits w h. fold minZoom.
  unfold Rgeb, Rleb.
  destruct (Rle_dec (Idle.maxZoom (idle b))
              (Math_pow 1.002 units * Camera.scale cam)) as [H1|H1].
  - lra.
  - destruct (Rle_dec (Math_pow 1.002 units * Camera.scale cam) minZoom);
      lra.
Qed.


(** X12: with limits not respected, wheel events compound.  Once the
    camera has taken the scale that an event of [u1] units asks for, an
    event of [u2] units asks for the scale that one event of [u1 + u2]
    units asks for from the start, and an event of [- u1] units for the
    scale of the start. *)
Theorem wheel_events_compound (u1 u2 : R) (b : Behavior K)
    (cam' : Camera.t) :
  respectLimits (diagram b) = false ->
  Camera.scale cam' = zoomTarget u1 b ->
  zoomTarget u2 (set_camera cam' b) = zoomTarget (u1 + u2) b /\
  zoomTarget (- u1) (set_camera cam' b) = Camera.scale (camera (diagram b)).
Proof.
  intros Hr Hs.
  assert (H : forall v, zoomTarget v (set_camera cam' b)
                        = Rpower 1.002 (u1 + v)
                          * Camera.scale (camera (diagram b))).
  { intros v. unfold zoomTarget at 1. cbn. rewrite Hr, Hs.
    unfold zoomTarget. rewrite Hr. unfold Math_pow.
    rewrite Rpower_plus. ring. }
  split.
  - rewrite H. unfold zoomTarget. rewrite Hr. reflexivity.
  - rewrite H. rewrite Rplus_opp_r, Rpower_O by lra. ring.
Qed.

End ZoomRange.

(** * More on rubber-banding *)

Section BandingMore.

Context {K : Type} {kops : KineticsOps K}.

(** X13: with rubber-banding, a drag that puts the camera exactly on the
    violated bound is applied as it is: at the lower bound a drag of
    [lower * scale], at the upper bound a drag of [(higher - extent) *
    scale], gives that same offset. *)
Theorem banding_exact_on_bound (horizontal : bool) (b : Behavior K) :
  rubberBanding (diagram b) = true ->
  let cam := camera (diagram b) in
  let scale := Camera.scale cam in
  let min := axis_min horizontal cam in
  let extent := axis_extent horizontal cam in
  let lower := axis_lower horizontal (Panning.limits (panning b)) in
  let higher := axis_higher horizontal (Panning.limits (panning b)) in
  scale <> 0 ->
  (min <= lower -> lower <> 0 ->
   fst (handleLimits horizontal (lower * scale) b) = lower * scale) /\
  (lower < min -> higher <= min + extent -> higher <> 0 ->
   fst (handleLimits horizontal ((higher - extent) * scale) b)
   = (higher - extent) * scale).
Proof.
  intros Hb cam scale min extent lower higher Hs. split.
  - intros Hm Hl.
    rewrite (handleLimits_lower_band horizontal _ b Hb Hm). cbn [fst].
    fold cam scale lower.
    replace (lower * scale / scale) with lower by (field; exact Hs).
    rewrite damp_same by exact Hl. ring.
  - intros Hlo Hhi Hh.
    rewrite (handleLimits_upper_band horizontal _ b Hb Hlo Hhi). cbn [fst].
    fold cam scale extent higher.
    replace ((higher - extent) * scale / scale + extent) with higher
      by (field; exact Hs).
    rewrite damp_same by exact Hh. ring.
Qed.

(** X14: past the lower bound, dragging further never brings the camera
    back: for two drags with [|lower| <= |d1/scale| <= |d2/scale|] the
    offset of the second is at least as large in magnitude. *)
Theorem banding_monotone (horizontal : bool) (d1 d2 : R) (b : Behavior K) :
  rubberBanding (diagram b) = true ->
  let scale := Camera.scale (camera (diagram b)) in
  let lower := axis_lower horizontal (Panning.limits (panning b)) in
  axis_min horizontal (camera (diagram b)) <= lower ->
  lower <> 0 -> 0 < scale ->
  Rabs lower <= Rabs (d1 / scale) ->
  Rabs (d1 / scale) <= Rabs (d2 / scale) ->
  Rabs (fst (handleLimits horizontal d1 b))
  <= Rabs (fst (handleLimits horizontal d2 b)).
Proof.
  intros Hb scale lower Hm Hl Hs H1 H2.
  assert (Hlpos : 0 < Rabs lower) by (apply Rabs_pos_lt; exact Hl).
  assert (Hr : forall d, Rabs lower <= Rabs (d / scale) ->
                         d / scale <> 0 /\ 1 <= Rabs (d / scale) / Rabs lower).
  { intros d Hd. split.
    - intros E. rewrite E, Rabs_R0 in Hd. lra.
    - apply Rmult_le_reg_r with (Rabs lower); [exact Hlpos|].
      unfold Rdiv at 1. rewrite Rmult_assoc, Rinv_l by lra. lra. }
  destruct (Hr d1 H1) as [Hd1 Hr1].
  destruct (Hr d2 (Rle_trans _ _ _ H1 H2)) as [Hd2 Hr2].
  rewrite (banding_abs_offset horizontal b Hb Hm Hl Hs d1 Hd1 Hr1).
  rewrite (banding_abs_offset horizontal b Hb Hm Hl Hs d2 Hd2 Hr2).
  fold scale lower.
  apply Rmult_le_compat_r; [lra|]. apply Rmult_le_compat_r; [lra|].
  apply Rplus_le_compat_l. unfold log10.
  apply Rmult_le_compat_r.
  - left. apply Rinv_0_lt_compat. pose proof ln_10_gt_1. lra.
  - assert (Hq : Rabs (d1 / scale) / Rabs lower
                 <= Rabs (d2 / scale) / Rabs lower).
    { apply Rmult_le_compat_r; [left; apply Rinv_0_lt_compat; lra | exact H2]. }
    destruct Hq as [Hlt | Heq].
    + left. apply ln_increasing; lra.
    + rewrite Heq. lra.
Qed.


(** X16: the correction a banding release plays.  With the left edge marked
    violated it centres the camera so that its world origin is back on the
    left bound, and with the top edge so that it is back on the top bound;
    with the bottom edge (and not the top) the far edge is put on the
    bottom bound.  The horizontal upper case reads the flag of the top edge:
    with neither the left nor the top edge marked, the centre keeps its
    horizontal position even when the right edge is marked. *)
Theorem banding_release_target (x y : R) (b : Behavior K) (k : K) :
  current b = Some PanningRef ->
  Panning.kinetics (panning b) = Some k ->
  isBanding b = true ->
  animatedNavigation (diagram b) = true ->
  let ca := camera (diagram b) in
  let limits := Panning.limits (panning b) in
  exists b' cx cy,
    handleMouseUp x y b = Returns b' /\
    Animating.animation (animating b') = Some (centerOnWorld cx cy 300) /\
    (Panning.left (panning b) = true ->
     cx = Limits.left limits + Camera.projWidth ca / 2) /\
    (Panning.left (panning b) = false -> Panning.top (panning b) = false ->
     cx = Camera.worldX ca + Camera.projWidth ca / 2) /\
    (Panning.left (panning b) = false -> Panning.top (panning b) = true ->
     cx = Limits.right limits - Camera.projWidth ca / 2) /\
    (Panning.top (panning b) = true ->
     cy = Limits.top limits + Camera.projHeight ca / 2) /\
    (Panning.top (panning b) = false -> Panning.bottom (panning b) = true ->
     cy = Limits.bottom limits - Camera.projHeight ca / 2) /\
    (Panning.top (panning b) = false -> Panning.bottom (panning b) = false ->
     cy = Camera.worldY ca + Camera.projHeight ca / 2).
Proof.
  intros Hc Hk Hb Ha ca limits.
  destruct (animate_from_panning b k (Some false) (bandingCorrection b) Hc Hk)
    as (b' & E & _ & _ & Han & _).
  exists b'.
  exists (Camera.worldX ca + Camera.projWidth ca / 2
          - calcDisplacement true (Camera.worldX ca)
              (Camera.worldX ca + Camera.projWidth ca) (panning b)).
  exists (Camera.worldY ca + Camera.projHeight ca / 2
          - calcDisplacement false (Camera.worldY ca)
              (Camera.worldY ca + Camera.projHeight ca) (panning b)).
  split.
  { unfold handleMouseUp. rewrite Hc. unfold Panning_handleMouseUp.
    rewrite Hb, Ha. exact E. }
  split; [exact Han|].
  unfold calcDisplacement. fold limits.
  repeat split.
  - intros ->. lra.
  - intros -> ->. lra.
  - intros -> ->. lra.
  - intros ->. lra.
  - intros -> ->. lra.
  - intros -> ->. lra.
Qed.

(** X17: [reenter(params)] leaves and enters the current state without
    touching the history: when the state entered does not itself leave
    again, the current and the last state are as before.  In the animating
    state the animation held is stopped and the new one played; without
    [params] the animating state returns to [Idle]. *)
Theorem reenter_keeps_history (params : option Params.t) (b : Behavior K) :
  reachable b ->
  (current b = Some AnimatingRef ->
   exists ps a, params = Some ps /\ Params.interpolator ps = Some a) ->
  (exists b', reenter params b = Returns b' /\
              current b' = current b /\ last b' = last b /\
              (current b = Some AnimatingRef ->
               forall ps a, params = Some ps ->
                            Params.interpolator ps = Some a ->
                 Animating.animation (animating b') = Some a /\
                 exists l, calls b' = calls b ++ l ++ [Play a] /\
                   (forall a0, Animating.animation (animating b) = Some a0 ->
                               In (Stop a0) l))) /\
  (current b = Some AnimatingRef ->
   exists b', reenter None b = Returns b' /\
              current b' = Some IdleRef /\ last b' = Some AnimatingRef).
Proof.
  intros Hr Hp. pose proof (reachable_settled b Hr) as Hs.
  destruct (proj1 Hs) as [cur Hc]. split.
  - destruct (leave_cleared b cur Hs Hc) as (b1 & E & Hcl & Hc1 & Hl1 & _).
    unfold reenter. rewrite Hc, E. cbn [bind]. rewrite Hc1.
    destruct cur; cbn [enterState].
    + eexists. split; [reflexivity|]. cbn.
      split; [exact Hc1|]. split; [exact Hl1|]. intros H; discriminate H.
    + unfold Panning_enterState, Panning_handleMouseDown.
      destruct params; (eexists; split; [reflexivity|]); cbn;
        (split; [exact Hc1|]); (split; [exact Hl1|]);
        intros H; discriminate H.
    + destruct (Hp Hc) as (ps & a & -> & Hi).
      unfold Animating_enterState. rewrite Hi.
      eexists. split; [reflexivity|]. cbn.
      split; [exact Hc1|]. split; [exact Hl1|].
      intros _ ps' a' [= <-] Hi'. rewrite Hi in Hi'. injection Hi' as <-.
      split; [reflexivity|].
      revert E. cbn [leaveState]. unfold Animating_leaveState.
      cbn [animating call].
      destruct (Animating.animation (animating b)) as [a0|]; intros [= <-].
      * exists [LeaveState AnimatingRef; Stop a0;
                EnterState AnimatingRef (Some ps)].
        cbn. split; [rewrite <- !app_assoc; reflexivity|].
        intros a1 [= <-]. simpl. auto.
      * exists [LeaveState AnimatingRef; EnterState AnimatingRef (Some ps)].
        cbn. split; [rewrite <- !app_assoc; reflexivity|].
        intros a1 H; discriminate H.
  - intros Hca.
    destruct (leave_cleared b AnimatingRef Hs Hca)
      as (b1 & E & Hcl & Hc1 & _).
    unfold reenter. rewrite Hca, E. cbn [bind]. rewrite Hc1.
    cbn [enterState]. unfold Animating_enterState.
    destruct (becomeIdle_cleared
                (call (EnterState AnimatingRef None) b1))
      as (b' & E' & _ & Hc' & _).
    + exact Hcl.
    + exact Hc1.
    + exists b'. split; [exact E'|]. split; [exact Hc'|].
      revert E'. unfold becomeIdle, goto_with.
      change (lookup "idle") with (Some IdleRef).
      cbn [current call]. rewrite Hc1. cbn [leaveState].
      unfold Animating_leaveState. cbn [animating call].
      rewrite (proj1 Hcl). cbn [bind BaseState_enterState].
      intros [= <-]. cbn. exact Hc1.
Qed.

End BandingMore.
(** * The shape renderer *)

Section RendererFacts.

Variable prototype_has : string -> bool.

Lemma Colors_keys (s : string) (n : Z) :
  property Colors s = Some n -> s <> ""%string.
Proof.
  intros H ->. vm_compute in H. discriminate H.
Qed.

(** X18: [getColor] gives each colour named in [Colors] its code and any
    other name that is not a property of [Object.prototype] the code [0] of
    black; a missing colour, the number [0] and the empty string give
    [null].  So black, by name or by number, and every unknown name count
    as no colour in a condition, and every other number as a colour. *)
Theorem getColor_cases :
  (forall s n, property Colors s = Some n ->
               getColor prototype_has (ColorName s) = ColorCode n) /\
  (forall s, property Colors s = None -> prototype_has s = false ->
             s <> ""%string ->
             getColor prototype_has (ColorName s) = ColorCode 0) /\
  getColor prototype_has (ColorName "") = NoColor /\
  getColor prototype_has (ColorNumber 0) = NoColor /\
  getColor prototype_has ColorMissing = NoColor /\
  (forall n, n <> 0%Z ->
             getColor prototype_has (ColorNumber n) = ColorCode n) /\
  truthy (getColor prototype_has (ColorName "black")) = false /\
  (forall s, property Colors s = None -> prototype_has s = false ->
             truthy (getColor prototype_has (ColorName s)) = false) /\
  (forall n, truthy (getColor prototype_has (ColorNumber n))
             = negb (Z.eqb n 0)).
Proof.
  assert (Hname : forall s n, property Colors s = Some n ->
            getColor prototype_has (ColorName s) = ColorCode n).
  { intros s n H. unfold getColor.
    destruct (String.eqb_spec s "") as [E | _].
    - exfalso. apply (Colors_keys s n H E).
    - unfold Colors_get. rewrite H. cbn [truthy].
      destruct (Z.eqb_spec n 0) as [-> | _]; reflexivity. }
  assert (Hother : forall s, property Colors s = None ->
            prototype_has s = false -> s <> ""%string ->
            getColor prototype_has (ColorName s) = ColorCode 0).
  { intros s H Hp Hs. unfold getColor.
    destruct (String.eqb_spec s "") as [E | _]; [contradiction|].
    unfold Colors_get. rewrite H, Hp. reflexivity. }
  split; [exact Hname|]. split; [exact Hother|].
  split; [reflexivity|]. split; [reflexivity|]. split; [reflexivity|].
  split.
  { intros n Hn. unfold getColor.
    destruct (Z.eqb_spec n 0); [contradiction | reflexivity]. }
  split.
  { rewrite (Hname "black"%string 0%Z) by reflexivity. reflexivity. }
  split.
  { intros s H Hp. destruct (String.eqb_spec s "") as [-> | Hs].
    - reflexivity.
    - rewrite (Hother s H Hp Hs). reflexivity. }
  intros n. unfold getColor. destruct (Z.eqb n 0) eqn:E; [reflexivity|].
  cbn [truthy]. rewrite E. reflexivity.
Qed.

Lemma switch_undrawn (style : Style.t) (fill : ColorValue) (l t w h : R) :
  drawn (Shape.type (Style.shape style)) = false ->
  renderShape_switch style fill l t w h
  = [Warn (Shape.type (Style.shape style))].
Proof.
  unfold renderShape_switch.
  destruct (Shape.type (Style.shape style)); intros H;
    try discriminate H; reflexivity.
Qed.

(** X19: [renderShape] and [cacheShape] draw for the same shape types:
    rectangle, circle, diamond, triangle, rounded and hourglass.  For every
    other type, [SQUARE] included, each of them draws nothing and warns. *)
Theorem drawn_shape_types (style : Style.t) (item : ViewItem.t) :
  let type := Shape.type (Style.shape style) in
  (existsb draws (renderShape prototype_has style item) = drawn type) /\
  (existsb canvas_draws (cacheShape style) = drawn type) /\
  (In (Warn type) (renderShape prototype_has style item)
   <-> drawn type = false) /\
  (In (CWarn type) (cacheShape style) <-> drawn type = false) /\
  (type = SQUARE ->
   cacheShape style = [FillStyle (Style.fill style); CWarn SQUARE] /\
   forall d, In d (renderShape prototype_has style item) ->
             draws d = false).
Proof.
  intros type.
  assert (Hex : forall (a b c d : list Draw),
            existsb draws a = false -> existsb draws b = false ->
            existsb draws d = false ->
            existsb draws (a ++ b ++ c ++ d) = existsb draws c).
  { intros a b c d Ha Hb Hd. rewrite !existsb_app, Ha, Hb, Hd.
    cbn. apply orb_false_r. }
  assert (Hpre : forall c : ColorValue,
            existsb draws (if truthy c then [BeginFill c] else []) = false).
  { intros c. destruct (truthy c); reflexivity. }
  assert (Hmid : forall c : ColorValue,
            existsb draws (if truthy c then [LineColor c] else []) = false).
  { intros c. destruct (truthy c); reflexivity. }
  assert (Hpost : forall c : ColorValue,
            existsb draws (if truthy c then [EndFill] else []) = false).
  { intros c. destruct (truthy c); reflexivity. }
  assert (Hdraw : existsb draws (renderShape prototype_has style item)
                  = drawn type).
  { unfold renderShape. rewrite Hex by (apply Hpre || apply Hmid || apply Hpost).
    unfold renderShape_switch. fold type. destruct type; reflexivity. }
  assert (Hwarn : In (Warn type) (renderShape prototype_has style item)
                  <-> drawn type = false).
  { unfold renderShape. rewrite !in_app_iff. split.
    - intros [H | [H | [H | H]]].
      + destruct (truthy _); [destruct H as [H | []]; discriminate H
                             | destruct H].
      + destruct (truthy _); [destruct H as [H | []]; discriminate H
                             | destruct H].
      + revert H. unfold renderShape_switch. fold type.
        destruct type; cbn; intros H; try reflexivity;
          repeat (destruct H as [H | H]; [discriminate H|]); destruct H.
      + destruct (truthy _); [destruct H as [H | []]; discriminate H
                             | destruct H].
    - intros H. right. right. left.
      rewrite switch_undrawn by exact H. left. reflexivity. }
  split; [exact Hdraw|].
  split; [unfold cacheShape; fold type; destruct type; reflexivity|].
  split; [exact Hwarn|].
  split.
  { unfold cacheShape. fold type. split.
    - destruct type; cbn; intros H; try reflexivity;
        repeat (destruct H as [H | H]; [discriminate H|]); destruct H.
    - intros H. destruct type; try discriminate H; cbn; auto. }
  intros Ht. split.
  - unfold cacheShape. fold type. rewrite Ht. reflexivity.
  - intros d Hd. rewrite Ht in Hdraw. cbn in Hdraw.
    destruct (draws d) eqn:E; [|reflexivity].
    assert (Hx : existsb draws (renderShape prototype_has style item) = true).
    { apply existsb_exists. exists d. split; assumption. }
    congruence.
Qed.

(** X20: the fill state [renderShape] leaves behind.  With a colour to fill
    with, filling is off at the end.  Without one, filling is left as it
    was found, except for an hourglass, which leaves filling switched on
    for whatever is drawn next on the same graphics. *)
Theorem renderShape_filling (style : Style.t) (item : ViewItem.t)
    (on : bool) :
  let fill := getColor prototype_has (Style.fill style) in
  let type := Shape.type (Style.shape style) in
  filling on (renderShape prototype_has style item)
  = if truthy fill then false
    else match type with
         | HOURGLASS => true
         | _ => on
         end.
Proof.
  intros fill type. unfold renderShape. fold fill.
  assert (Happ : forall (a b : list Draw) st,
            filling st (a ++ b) = filling (filling st a) b).
  { induction a as [|d a IH]; intros b st; [reflexivity|].
    destruct d; cbn; apply IH. }
  rewrite !Happ.
  assert (Hstroke : forall st,
            filling st (if truthy (getColor prototype_has (Style.stroke style))
                        then [LineColor (getColor prototype_has
                                           (Style.stroke style))]
                        else []) = st).
  { intros st. destruct (truthy _); reflexivity. }
  rewrite Hstroke.
  destruct (truthy fill); cbn [filling].
  - reflexivity.
  - unfold renderShape_switch. fold type. destruct type; reflexivity.
Qed.



(** X22: what [renderItem] and [renderGroup] make is what [attach] needs,
    and each sets a visual once.  For an item with a style and a group,
    neither with a visual yet: [renderItem] issues the calls of
    [renderShape] and stores the graphics it is given; [renderGroup] makes a
    root with two children, the shape and the empty content container;
    attaching the item to the group then succeeds and makes the graphics
    the only child of the content container, the shape staying the first
    child of the root.  A second [renderItem] or [renderGroup] issues no
    call and changes nothing. *)
Theorem render_then_attach (next : nat) (group : ViewGroup.t)
    (topLevel oblique : bool) (item : ViewItem.t) (style : Style.t)
    (visual : DisplayObject) :
  ViewVertex.visual (ViewGroup.vertex group) = None ->
  ViewVertex.visual (ViewItem.vertex item) = None ->
  ViewItem.style item = Some style ->
  let group' := fst (renderGroup next group topLevel oblique) in
  exists item',
    renderItem prototype_has item visual
    = Returns (item', renderShape prototype_has style item) /\
    ViewVertex.visual (ViewGroup.vertex group')
    = Some (Container next [Container (next + 1) [];
                            Container (next + 2) []]) /\
    attach (ViewItem.vertex item') (ViewGroup.vertex group')
    = inr (ViewVertex.mk (ViewVertex.name (ViewGroup.vertex group))
             (Some (Container next [Container (next + 1) [];
                                    Container (next + 2) [visual]]))) /\
    (forall visual', renderItem prototype_has item' visual'
                     = Returns (item', [])) /\
    (forall next' t o, renderGroup next' group' t o = (group', None)).
Proof.
  intros Hg Hi Hs group'. subst group'.
  unfold renderItem, renderGroup. rewrite Hg, Hi, Hs.
  eexists. split; [reflexivity|].
  cbn [fst ViewGroup.vertex ViewItem.vertex ViewVertex.visual addChild app].
  split; [reflexivity|]. split; [reflexivity|].
  split; reflexivity.
Qed.

End RendererFacts.
(** * The camera of the PIXI layer *)

(** X23: [scaleWorldTo] gives the world and the overlay the same scale and
    counter-scales every label: for a zoom other than [0] the scale of a
    label times the zoom is its base scale, on both axes.  What it leaves
    depends on the last zoom only, not on the zooms before, and the labels
    keep their number, order, base scale and upper scale; positions are not
    touched. *)
Theorem scaleWorldTo_labels (zoom last zoom0 last0 : R) (c : PixiCamera.t) :
  let c' := scaleWorldTo zoom last c in
  PixiCamera.worldScale c' = (zoom, zoom) /\
  PixiCamera.overlayScale c' = PixiCamera.worldScale c' /\
  PixiCamera.worldPosition c' = PixiCamera.worldPosition c /\
  PixiCamera.overlayPosition c' = PixiCamera.overlayPosition c /\
  map XText.baseScale (PixiCamera.labels c')
  = map XText.baseScale (PixiCamera.labels c) /\
  map XText.upperScale (PixiCamera.labels c')
  = map XText.upperScale (PixiCamera.labels c) /\
  (zoom <> 0 ->
   forall label, In label (PixiCamera.labels c') ->
     fst (XText.scale label) * zoom = XText.baseScale label /\
     snd (XText.scale label) * zoom = XText.baseScale label) /\
  scaleWorldTo zoom last (scaleWorldTo zoom0 last0 c) = c'.
Proof.
  intros c'. subst c'. unfold scaleWorldTo. cbn.
  do 4 (split; [reflexivity|]).
  split; [rewrite map_map; reflexivity|].
  split; [rewrite map_map; reflexivity|].
  split.
  - intros Hz label Hin. apply in_map_iff in Hin as (l0 & <- & _).
    cbn. split; field; exact Hz.
  - rewrite map_map. reflexivity.
Qed.

(** X24: after [scaleWorldTo] with a positive zoom, a label with a positive
    upper scale is visible exactly when the zoom is above its base scale
    divided by its upper scale; so for a label with a base scale that is not
    negative, zooming in further never hides it. *)
Theorem scaleWorldTo_visibility (zoom zoom' last last' : R)
    (label : XText.t) :
  0 < zoom -> 0 < XText.upperScale label ->
  (XText.visible (scaleLabel zoom label) = true <->
   XText.baseScale label / XText.upperScale label < zoom) /\
  (0 <= XText.baseScale label -> zoom <= zoom' ->
   XText.visible (scaleLabel zoom label) = true ->
   XText.visible (scaleLabel zoom' label) = true) /\
  (forall c, In label (PixiCamera.labels c) ->
     In (scaleLabel zoom label)
        (PixiCamera.labels (scaleWorldTo zoom last c))).
Proof.
  intros Hz Hu.
  assert (Hiff : forall z, 0 < z ->
            (XText.visible (scaleLabel z label) = true <->
             XText.baseScale label / XText.upperScale label < z)).
  { intros z Hzp. unfold scaleLabel. cbn [XText.visible]. unfold Rgtb.
    destruct (Rlt_dec (XText.baseScale label / z) (XText.upperScale label))
      as [H | H].
    - split; [intros _ | reflexivity].
      apply Rmult_lt_reg_r with (XText.upperScale label); [exact Hu|].
      unfold Rdiv at 1. rewrite Rmult_assoc, Rinv_l, Rmult_1_r by lra.
      apply Rmult_lt_compat_r with (r := z) in H; [|exact Hzp].
      unfold Rdiv in H. rewrite Rmult_assoc, Rinv_l, Rmult_1_r in H by lra.
      lra.
    - split; [discriminate|]. intros Hlt. exfalso. apply H.
      apply Rmult_lt_reg_r with z; [exact Hzp|].
      unfold Rdiv. rewrite Rmult_assoc, Rinv_l, Rmult_1_r by lra.
      apply Rmult_lt_compat_r with (r := XText.upperScale label) in Hlt;
        [|exact Hu].
      unfold Rdiv in Hlt.
      rewrite Rmult_assoc, Rinv_l, Rmult_1_r in Hlt by lra.
      lra. }
  split; [apply Hiff; exact Hz|]. split.
  - intros Hb Hle Hv. apply Hiff; [lra|].
    apply Hiff in Hv; [|exact Hz]. lra.
  - intros c Hin. unfold scaleWorldTo. cbn. apply in_map. exact Hin.
Qed.

(** * The quality of the PIXI layer *)

(** X25: [setQuality] keeps the quality between [0] and [1]: after any
    calls on a layer whose quality is unset, the quality is unset or within
    [0, 1], and the frame interval belongs to it: none at quality [0], and
    otherwise [1000 / (60 * quality)] milliseconds, which is at least
    [1000 / 60]. *)
Theorem setQuality_range (qs : list R) :
  let layer := fold_left (fun l q => setQuality q l) qs
                 (PixiLayer.mk None FramesUnset) in
  match PixiLayer.quality layer with
  | None =>
      PixiLayer.frames layer = FramesUnset /\
      Forall (fun q => q < 0 \/ 1 < q) qs
  | Some q =>
      0 <= q <= 1 /\ In q qs /\
      (q = 0 -> PixiLayer.frames layer = FramesNever) /\
      (q <> 0 ->
       PixiLayer.frames layer = FramesEvery (1000 / (60 * q)) /\
       1000 / 60 <= 1000 / (60 * q))
  end.
Proof.
  induction qs as [|q0 qs IH] using rev_ind.
  - cbn. split; [reflexivity | constructor].
  - cbn zeta in *. rewrite fold_left_app. cbn [fold_left].
    set (layer := fold_left (fun l q => setQuality q l) qs
                    (PixiLayer.mk None FramesUnset)) in *.
    unfold setQuality, Rgtb.
    destruct (Rlt_dec q0 0) as [Hlo | Hlo]; cbn [orb].
    + destruct (PixiLayer.quality layer) as [q|].
      * destruct IH as (Hr & Hin & H0 & H1).
        split; [exact Hr|]. split; [apply in_or_app; auto|].
        split; assumption.
      * destruct IH as [Hf Hall]. split; [exact Hf|].
        apply Forall_app. split; [exact Hall|]. constructor; [lra|constructor].
    + destruct (Rlt_dec 1 q0) as [Hhi | Hhi].
      * destruct (PixiLayer.quality layer) as [q|].
        -- destruct IH as (Hr & Hin & H0 & H1).
           split; [exact Hr|]. split; [apply in_or_app; auto|].
           split; assumption.
        -- destruct IH as [Hf Hall]. split; [exact Hf|].
           apply Forall_app. split; [exact Hall|].
           constructor; [lra|constructor].
      * cbn [PixiLayer.quality PixiLayer.frames].
        split; [lra|]. split; [apply in_or_app; right; left; reflexivity|].
        destruct (Req_dec_T q0 0) as [E | E].
        -- split; [reflexivity | contradiction].
        -- split; [contradiction|]. intros _. split; [reflexivity|].
           assert (Hq : 0 < q0) by lra.
           apply Rmult_le_reg_r with (60 * q0); [lra|].
           replace (1000 / (60 * q0) * (60 * q0)) with 1000 by (field; lra).
           replace (1000 / 60 * (60 * q0)) with (1000 * q0) by field.
           lra.
Qed.

(** * The split panes *)

(** X26: [DoubleSplit.adjust] tiles the width: the left pane is between
    [0] and [100] percent wide, the divider and the right pane start where
    it ends, and the two widths add up to [100].  [onMouseMove] passes the
    pointer position as a fraction of the window width, so that a drag
    within the window leaves the left pane at most [1] percent wide. *)
Theorem adjust_tiles (divider pageX innerWidth : R) (s : DoubleSplit.t) :
  let s' := adjust divider s in
  0 <= DoubleSplit.left_width s' <= 100 /\
  DoubleSplit.divider_left s' = DoubleSplit.left_width s' /\
  DoubleSplit.right_left s' = DoubleSplit.left_width s' /\
  DoubleSplit.left_width s' + DoubleSplit.right_width s' = 100 /\
  (0 <= divider <= 100 -> DoubleSplit.left_width s' = divider) /\
  (DoubleSplit.isDragging s = false ->
   DoubleSplit_onMouseMove pageX innerWidth s = s) /\
  (DoubleSplit.isDragging s = true ->
   0 < innerWidth -> 0 <= pageX <= innerWidth ->
   let m := DoubleSplit_onMouseMove pageX innerWidth s in
   DoubleSplit.left_width m = pageX / innerWidth /\
   DoubleSplit.left_width m <= 1 /\ 99 <= DoubleSplit.right_width m).
Proof.
  intros s'. subst s'.
  assert (Hclamp : forall d,
            let v := if Rgtb 0 d then 0
                     else if Rgtb d 100 then 100 else d in
            0 <= v <= 100 /\ (0 <= d <= 100 -> v = d)).
  { intros d. cbn zeta. unfold Rgtb.
    destruct (Rlt_dec d 0); [split; lra|].
    destruct (Rlt_dec 100 d); split; lra. }
  unfold adjust. cbn.
  destruct (Hclamp divider) as [Hr Hid].
  split; [exact Hr|]. do 2 (split; [reflexivity|]).
  split; [ring|]. split; [exact Hid|]. split.
  - intros Hd. unfold DoubleSplit_onMouseMove. rewrite Hd. reflexivity.
  - intros Hd Hw Hp. unfold DoubleSplit_onMouseMove. rewrite Hd.
    unfold adjust. cbn.
    assert (Hf : 0 <= pageX / innerWidth <= 1).
    { split.
      - apply Rmult_le_pos; [lra|]. left. apply Rinv_0_lt_compat. exact Hw.
      - apply Rmult_le_reg_r with innerWidth; [exact Hw|].
        unfold Rdiv. rewrite Rmult_assoc, Rinv_l, Rmult_1_r by lra. lra. }
    destruct (Hclamp (pageX / innerWidth)) as [_ Hid'].
    rewrite Hid' by lra. split; [reflexivity|]. split; lra.
Qed.

(** X27: [TripleSplit.readjust] keeps the two dividers in order and within
    the pane, whichever way round they are given: [0 <= left divider <=
    right divider <= 100].  The left pane ends at the left divider and the
    right pane fills the rest from the right divider; the centre pane is
    [100 - left - right] wide, so it ends at [100 - right]: it meets the
    right divider only when that is at [50], and its width is negative when
    the two positions add up to more than [100]. *)
Theorem readjust_dividers (l r : R) :
  let s := readjust l r in
  readjust r l = s /\
  0 <= TripleSplit.leftDiv_left s /\
  TripleSplit.leftDiv_left s <= TripleSplit.rightDiv_left s /\
  TripleSplit.rightDiv_left s <= 100 /\
  TripleSplit.leftContent_width s = TripleSplit.leftDiv_left s /\
  TripleSplit.center_left s = TripleSplit.leftDiv_left s /\
  TripleSplit.rightContent_left s = TripleSplit.rightDiv_left s /\
  TripleSplit.rightContent_left s + TripleSplit.rightContent_width s = 100 /\
  TripleSplit.center_left s + TripleSplit.center_width s
  = 100 - TripleSplit.rightDiv_left s /\
  (TripleSplit.center_left s + TripleSplit.center_width s
   = TripleSplit.rightDiv_left s <-> TripleSplit.rightDiv_left s = 50) /\
  (TripleSplit.center_width s < 0 <->
   100 < TripleSplit.leftDiv_left s + TripleSplit.rightDiv_left s).
Proof.
  intros s. subst s. unfold readjust.
  set (cl := if Rgtb 0 l then 0 else if Rgtb l 100 then 100 else l).
  set (cr := if Rgtb 0 r then 0 else if Rgtb r 100 then 100 else r).
  assert (Hl : 0 <= cl <= 100).
  { subst cl. unfold Rgtb. destruct (Rlt_dec l 0); [lra|].
    destruct (Rlt_dec 100 l); lra. }
  assert (Hr : 0 <= cr <= 100).
  { subst cr. unfold Rgtb. destruct (Rlt_dec r 0); [lra|].
    destruct (Rlt_dec 100 r); lra. }
  cbn.
  split; [rewrite (Rmin_comm cr cl), (Rmax_comm cr cl); reflexivity|].
  unfold Rmin, Rmax. destruct (Rle_dec cl cr);
    repeat split; intros; lra.
Qed.

(** * The palette and the model service *)

Lemma Math_floor_bounds (r : R) :
  IZR (Math_floor r) <= r < IZR (Math_floor r) + 1.
Proof.
  unfold Math_floor. pose proof (base_Int_part r) as [H1 H2]. lra.
Qed.

(** X28: [onIconSelect] selects only what is there.  Either the palette is
    left as it was, or the offset lies in the row of a category that exists,
    [32 * i <= y < 32 * (i + 1)], and then that category is the selected
    one, its components are the ones shown, and the marker is moved to
    [32 * i] pixels.  With the element [select] there and the offset in
    the rows of the categories, the palette does change that way. *)
Theorem onIconSelect_in_range (y : R) (select : bool) (p : Palette.t) :
  let p' := onIconSelect y select p in
  (p' = p \/
   exists (i : nat) (c : Category.t),
     nth_error (Palette.categories p) i = Some c /\
     32 * INR i <= y < 32 * (INR i + 1) /\
     p' = Palette.mk (Palette.categories p) (Some (Category.components c))
                     (Some (Category.name c)) (Some (Z.of_nat i * 32)%Z)) /\
  Palette.categories p' = Palette.categories p /\
  (select = true ->
   0 <= y < 32 * INR (List.length (Palette.categories p)) ->
   exists c, Palette.selected p' = Some (Category.name c) /\
             In c (Palette.categories p)).
Proof.
  intros p'. subst p'. unfold onIconSelect.
  pose proof (Math_floor_bounds (y / 32)) as [Hlo Hhi].
  set (index := Math_floor (y / 32)) in *.
  assert (Hy : 32 * IZR index <= y < 32 * (IZR index + 1)).
  { split.
    - apply Rmult_le_compat_l with (r := 32) in Hlo; [|lra].
      replace (32 * (y / 32)) with y in Hlo by field. exact Hlo.
    - apply Rmult_lt_compat_l with (r := 32) in Hhi; [|lra].
      replace (32 * (y / 32)) with y in Hhi by field. exact Hhi. }
  destruct (Z.geb_spec index 0) as [H0 | H0]; cbn [andb].
  - destruct (Z.ltb_spec index
                (Z.of_nat (List.length (Palette.categories p)))) as [H1 | H1];
      cbn [andb].
    + assert (Hn : (Z.to_nat index
                    < List.length (Palette.categories p))%nat) by lia.
      destruct (nth_error (Palette.categories p) (Z.to_nat index))
        as [c|] eqn:E;
        [|apply nth_error_None in E; lia].
      assert (Hi : INR (Z.to_nat index) = IZR index).
      { rewrite INR_IZR_INZ, Z2Nat.id by lia. reflexivity. }
      destruct select.
      * split; [|split].
        -- right. exists (Z.to_nat index), c.
           split; [exact E|]. rewrite Hi. split; [exact Hy|].
           rewrite Z2Nat.id by lia. reflexivity.
        -- reflexivity.
        -- intros _ _. exists c. split; [reflexivity|].
           apply nth_error_In with (Z.to_nat index). exact E.
      * split; [left; reflexivity|]. split; [reflexivity|].
        intros H; discriminate H.
    + split; [left; reflexivity|]. split; [reflexivity|].
      intros _ [_ Hb]. exfalso.
      apply IZR_le in H1. rewrite <- INR_IZR_INZ in H1. lra.
  - split; [left; reflexivity|]. split; [reflexivity|].
    intros _ [Ha _]. exfalso.
    assert (IZR index <= -1) by (apply IZR_le; lia). lra.
Qed.

(** X29: for every value of [Math.random()], which is at least [0] and
    below [1], [randomName] returns one of the names: the index never
    leaves the list. *)
Theorem randomName_defined (random : R) :
  0 <= random < 1 ->
  exists name, randomName random = Some name /\ In name names.
Proof.
  intros [H0 H1]. unfold randomName.
  pose proof (Math_floor_bounds (random * INR (List.length names)))
    as [Hlo Hhi].
  set (n := Math_floor (random * INR (List.length names))) in *.
  assert (Hlen : INR (List.length names) = 20) by (cbn; lra).
  rewrite Hlen in Hlo, Hhi.
  assert (Hn0 : (0 <= n)%Z).
  { apply Z.lt_succ_r. apply lt_IZR. rewrite succ_IZR. nra. }
  assert (Hn1 : (n < 20)%Z).
  { apply lt_IZR. nra. }
  destruct (Z.ltb_spec n 0) as [H | _]; [lia|].
  destruct (nth_error names (Z.to_nat n)) as [name|] eqn:E.
  - exists name. split; [reflexivity|].
    apply nth_error_In with (Z.to_nat n). exact E.
  - apply nth_error_None in E. cbn in E. lia.
Qed.
(** * The theorems of the machine at concrete machines *)

Lemma input_events_never_throw_witness :
  exists b', handle (MouseDown 400 300) constructed = Returns b' /\
             reachable b'.
Proof.
  apply (input_events_never_throw (MouseDown 400 300) constructed).
  - apply reachable_construct.
  - reflexivity.
Defined.

Lemma reachable_currentState_witness :
  exists s, current constructed = Some s /\
            currentState constructed = Value (name s) /\
            In (name s) supportedStates.
Proof.
  apply (reachable_currentState constructed). apply reachable_construct.
Defined.

Lemma reachable_animation_only_animating_witness :
  current constructed <> Some AnimatingRef /\
  Animating.animation (animating constructed) = None.
Proof.
  assert (H : current constructed <> Some AnimatingRef) by discriminate.
  split; [exact H|].
  apply (reachable_animation_only_animating constructed);
    [apply reachable_construct | exact H].
Defined.

Lemma reachable_panning_reset_witness :
  current constructed <> Some PanningRef /\ isBanding constructed = false.
Proof.
  assert (H : current constructed <> Some PanningRef) by discriminate.
  split; [exact H|].
  apply (reachable_panning_reset constructed);
    [apply reachable_construct | exact H].
Defined.

Lemma reachable_one_animation_witness :
  plays (calls constructed) (Animating.animation (animating constructed)).
Proof.
  apply (reachable_one_animation constructed). apply reachable_construct.
Defined.

Lemma idle_pointer_down_witness :
  current constructed = Some IdleRef /\
  exists b', handleMouseDown 400 300 constructed = Returns b' /\
             current b' = Some PanningRef.
Proof.
  split; [reflexivity|].
  destruct (idle_pointer_down 400 300 constructed
              (reachable_construct sample_diagram) eq_refl)
    as (b' & E & Hc & _).
  exists b'. split; assumption.
Defined.

Lemma repress_during_animation_witness :
  current correcting = Some AnimatingRef /\
  exists b', handleMouseDown 400 300 correcting = Returns b' /\
             current b' = Some PanningRef.
Proof.
  split; [reflexivity|].
  destruct (repress_during_animation 400 300 correcting
              (centerOnWorld 0 0 300) eq_refl eq_refl eq_refl)
    as (b' & E & Hc & _).
  exists b'. split; assumption.
Defined.

Lemma wheel_during_animation_witness :
  current correcting = Some AnimatingRef /\
  exists b', handleZoom 400 300 500 correcting = Returns b' /\
             current b' = Some IdleRef.
Proof.
  split; [reflexivity|].
  destruct (wheel_during_animation 400 300 500 correcting
              (centerOnWorld 0 0 300) eq_refl eq_refl eq_refl)
    as (b' & E & Hc & _).
  exists b'. split; assumption.
Defined.

Lemma driven_animation_stoppable_witness :
  Animating.forceAnimation (animating constructed) = false.
Proof.
  apply (driven_animation_stoppable constructed). apply driven_construct.
Defined.

Lemma zoomTarget_within_limits_witness :
  respectLimits (diagram constructed) = true /\
  800 / (2800 - -800) <= zoomTarget 500 constructed <= 10.
Proof.
  split; [reflexivity|].
  assert (H : (if Rgtb 800 600 then 800 / (2800 - -800)
               else 600 / (2800 - -800)) = 800 / (2800 - -800))
    by (rewrite Rgtb_true by lra; reflexivity).
  rewrite <- H.
  apply (zoomTarget_within_limits 500 constructed eq_refl).
  cbn. rewrite Rgtb_true by lra. lra.
Defined.


Lemma wheel_events_compound_witness :
  let b := machine (construct (K := bool)
                      (mkDiagram (Camera.mk 0 0 1 800 600) false true true
                                 true 0.5 1 None)) in
  let cam' := Camera.mk 0 0 (zoomTarget 500 b) 800 600 in
  zoomTarget (- 500) (set_camera cam' b) = Camera.scale (camera (diagram b)).
Proof.
  intros b cam'.
  apply (wheel_events_compound 500 500 b cam' eq_refl eq_refl).
Defined.

Lemma banding_exact_on_bound_witness :
  let b := pressed (bound_diagram true) in
  fst (handleLimits true (-800 * 1) b) = -800 * 1.
Proof.
  intros b.
  assert (Hs : Camera.scale (camera (diagram b)) <> 0) by (cbn; lra).
  destruct (banding_exact_on_bound true b eq_refl Hs) as [Hlow _].
  apply Hlow; [bounds | cbn; lra].
Defined.

Lemma banding_monotone_witness :
  let b := pressed (bound_diagram true) in
  Rabs (fst (handleLimits true (-1000) b))
  <= Rabs (fst (handleLimits true (-8000) b)).
Proof.
  intros b.
  apply (banding_monotone true (-1000) (-8000) b eq_refl).
  - bounds.
  - cbn. lra.
  - cbn. lra.
  - cbn. rewrite !Rabs_left by lra. lra.
  - cbn. rewrite !Rabs_left by lra. lra.
Defined.


Lemma banding_release_target_witness :
  isBanding banded = true /\
  exists b' cx cy,
    handleMouseUp 400 300 banded = Returns b' /\
    Animating.animation (animating b') = Some (centerOnWorld cx cy 300) /\
    cx = -800 + Camera.projWidth (camera (diagram banded)) / 2.
Proof.
  split; [reflexivity|].
  destruct (banding_release_target 400 300 banded false
              eq_refl eq_refl eq_refl eq_refl)
    as (b' & cx & cy & E & Ha & Hl & _).
  exists b', cx, cy. split; [exact E|]. split; [exact Ha|].
  apply Hl. reflexivity.
Defined.

Lemma reenter_keeps_history_witness :
  exists b', reenter None constructed = Returns b' /\
             current b' = current constructed /\
             last b' = last constructed.
Proof.
  destruct (reenter_keeps_history None constructed
              (reachable_construct sample_diagram))
    as [(b' & E & Hc & Hl & _) _].
  - intros H. discriminate H.
  - exists b'. repeat split; assumption.
Defined.


Lemma render_then_attach_witness :
  let group := ViewGroup.mk (ViewVertex.mk "Level #1" None) 0 0 2000 2000
                            0.1 in
  let style := Style.mk (ColorName "cornflowerblue") ColorMissing
                        (Shape.mk RECTANGLE None) in
  let item := ViewItem.mk (ViewVertex.mk "Stock" None) 10 20 192 108
                          (Some style) in
  exists item',
    renderItem (fun _ => false) item (Container 7 [])
    = Returns (item', [BeginFill (ColorCode 0x6495ED); DrawRect 10 20 192 108;
                       EndFill]) /\
    attach (ViewItem.vertex item')
      (ViewGroup.vertex (fst (renderGroup 1 group true false)))
    = inr (ViewVertex.mk "Level #1"
             (Some (Container 1 [Container 2 [];
                                 Container 3 [Container 7 []]]))).
Proof.
  intros group style item.
  destruct (render_then_attach (fun _ => false) 1 group true false item style
              (Container 7 []) eq_refl eq_refl eq_refl)
    as (item' & E & _ & Ha & _).
  exists item'. split; [exact E | exact Ha].
Defined.

Lemma scaleWorldTo_visibility_witness :
  let label := XText.mk 0.5 1 (1, 1) false in
  XText.visible (scaleLabel 2 label) = true <-> 0.5 / 1 < 2.
Proof.
  intros label.
  apply (scaleWorldTo_visibility 2 2 1 1 label); cbn; lra.
Defined.

Lemma randomName_defined_witness :
  exists name, randomName 0.5 = Some name /\ In name names.
Proof. apply (randomName_defined 0.5). lra. Defined.
